(** * Line reconstruction and patient-name extraction ([src/main.py])

    A shallow embedding of the two core functions of [main.py]:

    - [sort_file]: groups OCR word boxes into lines by a quantised vertical
      centre and orders every line from left to right;
    - [extract_patient_name]: scans text lines for a title marker and returns
      the two capitalised words that follow it.

    Python values are modelled as they are at run time.  Numbers are IEEE-754
    binary64 floats ([spec_float] at precision 53, the standard library's
    executable specification, with NaN, infinities and signed zeros), dicts
    are finite maps from string keys, the word dicts of the input list live
    in a store addressed by references (the list holds references, so a dict
    reached twice is the same dict), and an exception is a value of type
    [exn] that a computation returns instead of a result. *)

From Stdlib Require Import ZArith Floats.SpecFloat.
From stdpp Require Import gmap strings list fin_maps sorting.

#[global] Set Warnings "-register-all".

(** ** Exceptions and results *)

(** The exceptions the functions can raise.  [KeyError] carries the key
    that was looked up, as Python's does.  [UnicodeEncodeError] is what
    [print] raises at a string the standard output cannot encode; it is a
    subclass of [ValueError]. *)
Inductive exn :=
  | KeyError (k : string)
  | TypeError
  | ZeroDivisionError
  | ValueError
  | OverflowError
  | UnicodeEncodeError.

Inductive result (A : Type) :=
  | Ok (a : A)
  | Raise (e : exn).
Arguments Ok {A} a.
Arguments Raise {A} e.

#[global] Instance exn_eq_dec : EqDecision exn.
Proof. solve_decision. Defined.

#[global] Instance result_ret : MRet result := @Ok.
#[global] Instance result_bind : MBind result := fun A B f m =>
  match m with
  | Ok a => f a
  | Raise e => Raise e
  end.

Definition is_ok {A} (r : result A) : bool :=
  match r with Ok _ => true | Raise _ => false end.

(** ** Floats *)

Abbreviation float := spec_float.

Definition fadd : float -> float -> float := SFadd 53 1024.
Definition fdiv : float -> float -> float := SFdiv 53 1024.

(** The float [2.0], the value the int literal [2] converts to in [x / 2]. *)
Definition two : float := S754_finite false 4503599627370496 (-51)%Z.

Definition is_nan (f : float) : bool :=
  match f with S754_nan => true | _ => false end.

Definition is_zero (f : float) : bool :=
  match f with S754_zero _ => true | _ => false end.

(** [round(x)] of a float with no [ndigits]: the nearest integer, ties to the
    even one.  [m * 2^e] is the magnitude of a finite float. *)
Definition round_half_even (m : positive) (e : Z) : Z :=
  (if 0 <=? e then Z.pos m * 2 ^ e
   else
     let d := 2 ^ (- e) in
     let q := Z.pos m / d in
     let r := Z.pos m mod d in
     match (2 * r ?= d) with
     | Lt => q
     | Gt => q + 1
     | Eq => if Z.even q then q else q + 1
     end)%Z.

Definition float_round (f : float) : result Z :=
  match f with
  | S754_nan => Raise ValueError
  | S754_infinity _ => Raise OverflowError
  | S754_zero _ => Ok 0%Z
  | S754_finite s m e =>
      Ok (if s then (- round_half_even m e)%Z else round_half_even m e)
  end.

(** ** Strings *)

(** A Python [str] is a sequence of Unicode code points. *)
Abbreviation char := N (only parsing).
Abbreviation pystr := (list N) (only parsing).

(** ** Values *)

(** The values a word dict holds: numbers, strings and nested dicts (the
    [bbox]).  A number is a float, as the data model has the coordinates (a
    JSON integer stands for the float it denotes).  A nested dict is only
    ever read, so it is held by value. *)
Inductive value :=
  | VFloat (f : float)
  | VStr (s : pystr)
  | VDict (d : gmap string value).

Abbreviation dict := (gmap string value) (only parsing).
Abbreviation loc := positive (only parsing).
Abbreviation heap := (gmap positive (gmap string value)) (only parsing).

(** [d[k]] on a dict. *)
Definition dict_get (d : dict) (k : string) : result value :=
  match d !! k with
  | Some v => Ok v
  | None => Raise (KeyError k)
  end.

(** [v[k]] on any value: only a dict can be subscripted by a string. *)
Definition subscript (v : value) (k : string) : result value :=
  match v with
  | VDict d => dict_get d k
  | _ => Raise TypeError
  end.

(** [a + b]. *)
Definition py_add (a b : value) : result value :=
  match a, b with
  | VFloat x, VFloat y => Ok (VFloat (fadd x y))
  | VStr x, VStr y => Ok (VStr (x ++ y))
  | _, _ => Raise TypeError
  end.

(** [a / b]: float division raises on a zero divisor of either sign. *)
Definition py_truediv (a b : value) : result value :=
  match a, b with
  | VFloat x, VFloat y =>
      if is_zero y then Raise ZeroDivisionError else Ok (VFloat (fdiv x y))
  | _, _ => Raise TypeError
  end.

(** [round(v)]. *)
Definition py_round (v : value) : result Z :=
  match v with
  | VFloat f => float_round f
  | _ => Raise TypeError
  end.

Definition as_float (v : value) : result float :=
  match v with
  | VFloat f => Ok f
  | _ => Raise TypeError
  end.

(** ** The store monad *)

(** A computation reads and updates the store of word dicts and either
    returns or raises; updates made before a [raise] stay. *)
Definition M (A : Type) : Type := heap -> heap * result A.

#[global] Instance M_ret : MRet M := fun A a h => (h, Ok a).
#[global] Instance M_bind : MBind M := fun A B f m h =>
  match m h with
  | (h', Ok a) => f a h'
  | (h', Raise e) => (h', Raise e)
  end.

Definition lift {A} (r : result A) : M A := fun h => (h, r).

(** [word[k]] for a word of the input list. *)
Definition getitem (word : loc) (k : string) : M value :=
  fun h => (h, dict_get (h !!! word) k).

(** [word[k] = v]. *)
Definition setitem (word : loc) (k : string) (v : value) : M unit :=
  fun h => (<[word := <[k := v]> (h !!! word)]> h, Ok tt).

Fixpoint for_each {A} (body : A -> M unit) (l : list A) : M unit :=
  match l with
  | [] => mret tt
  | a :: l' => body a ≫= fun _ => for_each body l'
  end.

Fixpoint map_M {A B} (f : A -> M B) (l : list A) : M (list B) :=
  match l with
  | [] => mret []
  | a :: l' => b ← f a; bs ← map_M f l'; mret (b :: bs)
  end.

(** ** [sorted] *)

(** [sorted(l, key=key)] compares keys with [<] only and is stable.  It is
    modelled by stable insertion: on keys that [<] orders totally the result is
    the one stable sorted list, whatever the algorithm, and on lists of at
    most two elements it is what CPython's run detection computes for any
    [<]. *)
Section Sorted.
Context {A K : Type} (lt : K -> K -> bool) (key : A -> K).

Fixpoint insert_sorted (x : A) (l : list A) : list A :=
  match l with
  | [] => [x]
  | y :: l' =>
      if lt (key y) (key x) then y :: insert_sorted x l' else x :: y :: l'
  end.

Fixpoint py_sorted (l : list A) : list A :=
  match l with
  | [] => []
  | x :: l' => insert_sorted x (py_sorted l')
  end.

(** Two neighbours of a sorted list: the right one is not below the left
    one. *)
Definition ordered (a b : A) : Prop := lt (key b) (key a) = false.
End Sorted.

(** ** [sort_file] *)

(** [(word['bbox'][lo] + word['bbox'][hi]) / 2] *)
Definition average (word : loc) (lo hi : string) : M value :=
  b1 ← getitem word "bbox"; a ← lift (subscript b1 lo);
  b2 ← getitem word "bbox"; b ← lift (subscript b2 hi);
  s ← lift (py_add a b);
  lift (py_truediv s (VFloat two)).

(** The body of the first loop. *)
Definition annotate (word : loc) : M unit :=
  y ← average word "y_min" "y_max";
  _ ← setitem word "y_avg" y;
  x ← average word "x_min" "x_max";
  setitem word "x_avg" x.

(** [buckets.setdefault(key, []).append(word)] *)
Definition setdefault_append (key : Z) (word : loc)
    (buckets : gmap Z (list loc)) : gmap Z (list loc) :=
  <[key := default [] (buckets !! key) ++ [word]]> buckets.

(** [round(word['y_avg'] / y_tol)] *)
Definition bucket_key (y_tol : float) (word : loc) : M Z :=
  y ← getitem word "y_avg";
  q ← lift (py_truediv y (VFloat y_tol));
  lift (py_round q).

(** The second loop, threading [buckets]. *)
Fixpoint group (y_tol : float) (words : list loc)
    (buckets : gmap Z (list loc)) : M (gmap Z (list loc)) :=
  match words with
  | [] => mret buckets
  | word :: rest =>
      key ← bucket_key y_tol word;
      group y_tol rest (setdefault_append key word buckets)
  end.

(** [sorted(bucket, key=lambda w: w['x_avg'])]: the keys are read once per
    word, then compared.  Every [x_avg] is a float here, the first loop has
    stored the result of a float division ([sort_file_total] below: this
    step raises nothing). *)
Definition sort_line (bucket : list loc) : M (list loc) :=
  decorated ← map_M (fun w => v ← getitem w "x_avg";
                              x ← lift (as_float v); mret (x, w)) bucket;
  mret (snd <$> py_sorted SFltb fst decorated).

(** The three loops.  The keys of a dict are distinct, so
    [sorted(buckets.keys())] is their one ascending list, in whatever order
    the dict hands them over. *)
Definition sort_file (words : list loc) (y_tol : float)
    : M (list (list loc)) :=
  _ ← for_each annotate words;
  buckets ← group y_tol words ∅;
  map_M (fun key => sort_line (buckets !!! key))
        (py_sorted Z.ltb id (fst <$> map_to_list buckets)).

(** ** String operations *)

Definition of_string (s : string) : pystr :=
  Ascii.N_of_ascii <$> String.list_ascii_of_string s.

(** [s.startswith(p)] *)
Fixpoint starts_with (p s : pystr) : bool :=
  match p, s with
  | [], _ => true
  | _ :: _, [] => false
  | a :: p', b :: s' => (a =? b)%N && starts_with p' s'
  end.

(** [sub in s] *)
Fixpoint py_in (sub s : pystr) : bool :=
  starts_with sub s ||
  match s with
  | [] => false
  | _ :: s' => py_in sub s'
  end.

(** [s.partition(sep)] when [sep] occurs: what stands before its first
    occurrence and what stands after it. *)
Fixpoint partition_first (sep s : pystr) : option (pystr * pystr) :=
  if starts_with sep s then Some ([], drop (length sep) s)
  else
    match s with
    | [] => None
    | c :: s' =>
        match partition_first sep s' with
        | Some (before, after) => Some (c :: before, after)
        | None => None
        end
    end.

(** The parts of [s] between the occurrences of [sep], found from the left
    and not overlapping.  Every cut removes at least one character when [sep]
    is not empty, so [length s] cuts are enough. *)
Fixpoint split_parts (fuel : nat) (sep s : pystr) : list pystr :=
  match fuel with
  | O => [s]
  | S n =>
      match partition_first sep s with
      | None => [s]
      | Some (before, after) => before :: split_parts n sep after
      end
  end.

(** [s.split(sep)] *)
Definition py_split (sep s : pystr) : result (list pystr) :=
  match sep with
  | [] => Raise ValueError
  | _ :: _ => Ok (split_parts (length s) sep s)
  end.

(** The text up to the next occurrence of [sep], all of it when there is
    none: what [split] puts in [parts[1]] for the text after the first
    occurrence. *)
Definition segment (sep s : pystr) : pystr :=
  match partition_first sep s with
  | Some (before, _) => before
  | None => s
  end.

(** The code points [str.isspace] accepts. *)
Definition unicode_isspace (c : char) : bool :=
  ((9 <=? c) && (c <=? 13) || (28 <=? c) && (c <=? 32) ||
   (c =? 133) || (c =? 160) || (c =? 5760) ||
   (8192 <=? c) && (c <=? 8202) || (c =? 8232) || (c =? 8233) ||
   (c =? 8239) || (c =? 8287) || (c =? 12288))%N.

(** [str.isupper] on the code points below 256 ([A-Z], [À-Ö], [Ø-Þ]). *)
Definition latin1_isupper (c : char) : bool :=
  ((65 <=? c) && (c <=? 90) || (192 <=? c) && (c <=? 214) ||
   (216 <=? c) && (c <=? 222))%N.

Section Extractor.
(** The two Unicode properties the extractor consults, [c.isspace()] and
    [c.isupper()] of one code point. *)
Context (isspace isupper : char -> bool).

Fixpoint lstrip (s : pystr) : pystr :=
  match s with
  | [] => []
  | c :: s' => if isspace c then lstrip s' else s
  end.

Fixpoint rstrip (s : pystr) : pystr :=
  match s with
  | [] => []
  | c :: s' =>
      match rstrip s' with
      | [] => if isspace c then [] else [c]
      | r => c :: r
      end
  end.

(** [s.strip()] *)
Definition strip (s : pystr) : pystr := rstrip (lstrip s).

Definition cons_word (w : pystr) (ws : list pystr) : list pystr :=
  match w with
  | [] => ws
  | _ :: _ => w :: ws
  end.

(** The run of non-blank characters [s] starts with (empty when [s] starts
    with a blank), and the words after that run. *)
Fixpoint scan_words (s : pystr) : pystr * list pystr :=
  match s with
  | [] => ([], [])
  | c :: s' =>
      let (w, ws) := scan_words s' in
      if isspace c then ([], cons_word w ws) else (c :: w, ws)
  end.

(** [s.split()]: the maximal runs of non-blank characters. *)
Definition split_ws (s : pystr) : list pystr :=
  let (w, ws) := scan_words s in cons_word w ws.

(** [word and word[0].isupper()] *)
Definition capitalized (word : pystr) : bool :=
  match word with
  | [] => false
  | c :: _ => isupper c
  end.

(** [[w for w in parts1.strip().split() if w and w[0].isupper()]] *)
Definition candidates (parts1 : pystr) : list pystr :=
  filter (fun w => capitalized w = true) (split_ws (strip parts1)).

(** The inner loop over the markers for one line: [Some] is the pair a
    [return] inside the loop hands back, [None] is falling out of it. *)
Fixpoint scan_markers (line : pystr) (markers : list pystr)
    : result (option (pystr * pystr)) :=
  match markers with
  | [] => Ok None
  | marker :: rest =>
      if py_in marker line then
        parts ← py_split marker line;
        if (1 <? length parts)%nat then
          let candidate_names := candidates (parts !!! 1%nat) in
          if (2 <=? length candidate_names)%nat then
            Ok (Some (candidate_names !!! 0%nat, candidate_names !!! 1%nat))
          else scan_markers line rest
        else scan_markers line rest
      else scan_markers line rest
  end.

Fixpoint extract_patient_name (lines_text : list pystr)
    (markers : list pystr) : result (option pystr * option pystr) :=
  match lines_text with
  | [] => Ok (None, None)
  | line :: rest =>
      found ← scan_markers line markers;
      match found with
      | Some (first, last) => Ok (Some first, Some last)
      | None => extract_patient_name rest markers
      end
  end.

(** A word of [split()] is not empty and holds no blank. *)
Definition is_word (w : pystr) : Prop :=
  w <> [] /\ Forall (fun c => isspace c = false) w.

(** The capitalised words of a string, counted at the places where a word
    starts: a capital that is not blank and follows a blank or opens the
    string. *)
Fixpoint cap_starts (after_blank : bool) (s : pystr) : nat :=
  match s with
  | [] => 0
  | c :: s' =>
      (if after_blank && negb (isspace c) && isupper c then 1 else 0)
      + cap_starts (isspace c) s'
  end.

(** How many words are capitalised. *)
Definition cap_count (ws : list pystr) : nat :=
  length (filter (fun w => capitalized w = true) ws).

End Extractor.

(** The default value of [markers]. *)
Definition default_markers : list pystr :=
  [of_string "Monsieur"; of_string "Madame"].

(** ** Views of the store that the statements use *)

(** The pure part of [average]: it reads the dict of the word only. *)
Definition avg_of (d : dict) (lo hi : string) : result value :=
  b1 ← dict_get d "bbox"; a ← subscript b1 lo;
  b2 ← dict_get d "bbox"; b ← subscript b2 hi;
  s ← py_add a b;
  py_truediv s (VFloat two).

(** What [annotate] stores in the dict [d] of its word ([None]: nothing is
    stored), and how it ends. *)
Definition annotated (d : dict) : option dict * result unit :=
  match avg_of d "y_min" "y_max" with
  | Raise e => (None, Raise e)
  | Ok y =>
      match avg_of d "x_min" "x_max" with
      | Raise e => (Some (<["y_avg" := y]> d), Raise e)
      | Ok x => (Some (<["x_avg" := x]> (<["y_avg" := y]> d)), Ok tt)
      end
  end.

Definition write (w : loc) (o : option dict) (h : heap) : heap :=
  match o with
  | None => h
  | Some d => <[w := d]> h
  end.

(** [word['x_avg']] and [word['y_avg']] when they hold floats. *)
Definition float_field (k : string) (h : heap) (w : loc) : option float :=
  match (h !!! w) !! k with
  | Some (VFloat f) => Some f
  | _ => None
  end.

Definition x_avg_of : heap -> loc -> option float := float_field "x_avg".
Definition y_avg_of : heap -> loc -> option float := float_field "y_avg".

(** The bucket key [round(word['y_avg'] / y_tol)] of a word in a store. *)
Definition key_of (y_tol : float) (h : heap) (w : loc) : result Z :=
  (bucket_key y_tol w h).2.

Definition keyf (y_tol : float) (h : heap) (w : loc) : Z :=
  match key_of y_tol h w with
  | Ok k => k
  | Raise _ => 0%Z
  end.

Definition xf (h : heap) (w : loc) : float :=
  default S754_nan (x_avg_of h w).

(** The words of a bucket: those of the input with that key, in input
    order. *)
Definition bucket_of (y_tol : float) (h : heap) (words : list loc) (k : Z)
    : list loc :=
  filter (fun w => keyf y_tol h w = k) words.

(** The first field [annotate] finds missing in a word dict, in the order it
    reads them. *)
Definition missing_field (d : dict) : option string :=
  match d !! "bbox" with
  | None => Some "bbox"
  | Some (VDict b) =>
      List.find (fun c => bool_decide (b !! c = None))
                ["y_min"; "y_max"; "x_min"; "x_max"]
  | Some _ => None
  end.

(** A word box as the spec's data model has it: a [bbox] with four numbers. *)
Definition well_formed (d : dict) : Prop :=
  exists b y0 y1 x0 x1,
    d !! "bbox" = Some (VDict b) /\
    b !! "y_min" = Some (VFloat y0) /\ b !! "y_max" = Some (VFloat y1) /\
    b !! "x_min" = Some (VFloat x0) /\ b !! "x_max" = Some (VFloat x1).

(** The ordinate of the centre of a word box, when its [bbox] holds the two
    numbers: what the first loop stores as [y_avg]. *)
Definition y_mid (d : dict) : option float :=
  match avg_of d "y_min" "y_max" with
  | Ok (VFloat y) => Some y
  | _ => None
  end.

(** The coordinates a word box holds are floats: where the [bbox] is a dict,
    each of the four coordinates that is there is a float.  A coordinate may
    be missing, and the [bbox] may be missing or be no dict. *)
Definition float_coordinates (d : dict) : Prop :=
  forall b c v,
    d !! "bbox" = Some (VDict b) ->
    c ∈ ["y_min"; "y_max"; "x_min"; "x_max"] ->
    b !! c = Some v -> exists f, v = VFloat f.

(** A computation that only reads the store. *)
Definition read_only {A} (m : M A) : Prop := forall h, (m h).1 = h.

(** Once a word carries float averages it keeps carrying them. *)
Definition has_averages (h : heap) (w : loc) : Prop :=
  is_Some (y_avg_of h w) /\ is_Some (x_avg_of h w).

(** [buckets] after the loop, when every key could be computed. *)
Definition fill (y_tol : float) (h : heap) (ws : list loc)
    (b : gmap Z (list loc)) : gmap Z (list loc) :=
  foldl (fun b w => setdefault_append (keyf y_tol h w) w b) b ws.

(** [sorted(buckets.keys())] *)
Definition line_keys (y_tol : float) (h : heap) (ws : list loc) : list Z :=
  py_sorted Z.ltb id (map_to_list (fill y_tol h ws ∅)).*1.

(** The lines [sort_file] returns for a store in which every word carries
    its averages. *)
Definition lines_of (y_tol : float) (h : heap) (ws : list loc)
    : list (list loc) :=
  (fun k => py_sorted SFltb (xf h) (bucket_of y_tol h ws k)) <$>
  line_keys y_tol h ws.

(** Two floats that [==] holds equal. *)
Definition same_float (a b : float) : Prop :=
  match a, b with
  | S754_zero _, S754_zero _ => True
  | S754_infinity s1, S754_infinity s2 => s1 = s2
  | S754_finite s1 m1 e1, S754_finite s2 m2 e2 =>
      s1 = s2 /\ m1 = m2 /\ e1 = e2
  | _, _ => False
  end.

(** ** The extractor in the specification's words *)

(** The extractor as the specification words it: the line is cut at the
    first occurrence of the marker and everything after that occurrence is
    the text in which the name is looked for. *)
Section Specified.
Context (isspace isupper : char -> bool).

Fixpoint specified_scan_markers (line : pystr) (markers : list pystr)
    : option (pystr * pystr) :=
  match markers with
  | [] => None
  | marker :: rest =>
      match partition_first marker line with
      | Some (_, after) =>
          let names := candidates isspace isupper after in
          if (2 <=? length names)%nat
          then Some (names !!! 0%nat, names !!! 1%nat)
          else specified_scan_markers line rest
      | None => specified_scan_markers line rest
      end
  end.

Fixpoint specified_extract (lines_text : list pystr) (markers : list pystr)
    : option pystr * option pystr :=
  match lines_text with
  | [] => (None, None)
  | line :: rest =>
      match specified_scan_markers line markers with
      | Some (first, last) => (Some first, Some last)
      | None => specified_extract rest markers
      end
  end.

(** No marker is followed by two capitalised words on any line. *)
Definition no_pair_follows (lines_text markers : list pystr) : Prop :=
  forall line marker before after,
    line ∈ lines_text -> marker ∈ markers ->
    partition_first marker line = Some (before, after) ->
    (length (candidates isspace isupper after) < 2)%nat.
End Specified.

(** ** Example inputs *)

Definition line_repeated : pystr := of_string "Monsieur Jean Monsieur Dupont".

Definition line_both : pystr :=
  of_string "Monsieur Jean Monsieur Dupont Madame Anne Martin".

Definition line_title_last : pystr := of_string "Cher Monsieur ".

Definition line_madame_first : pystr :=
  of_string "Madame Anne Martin Monsieur Jean Dupont".

Definition lines_example : list pystr :=
  [of_string "Monsieur Jean Dupont ne"; of_string "le 12/01/1980"].

Definition flt (m : positive) (e : Z) : float := S754_finite false m e.

(** The default tolerance, [0.005]. *)
Definition y_tol_default : float := flt 5764607523034235 (-60).

Definition f_0_05 : float := flt 7205759403792794 (-57).
Definition f_0_10 : float := flt 7205759403792794 (-56).
Definition f_0_15 : float := flt 5404319552844595 (-55).
Definition f_0_20 : float := flt 7205759403792794 (-55).
Definition f_0_25 : float := flt 4503599627370496 (-54).
Definition f_0_35 : float := flt 6305039478318694 (-54).

(** A word box whose centre is [(x, y)]. *)
Definition word_box (text : string) (x y : float) : dict :=
  {[ "text" := VStr (of_string text);
     "bbox" := VDict {[ "x_min" := VFloat x; "x_max" := VFloat x;
                        "y_min" := VFloat y; "y_max" := VFloat y ]} ]}.

(** The two lines of the specification's end-to-end example. *)
Definition example_store : heap :=
  {[ 1%positive := word_box "Monsieur" f_0_05 f_0_10;
     2%positive := word_box "Jean" f_0_15 f_0_10;
     3%positive := word_box "Dupont" f_0_25 f_0_10;
     4%positive := word_box "ne" f_0_35 f_0_10;
     5%positive := word_box "le" f_0_05 f_0_20;
     6%positive := word_box "12/01/1980" f_0_15 f_0_20 ]}.

Definition example_words : list loc := [3; 5; 1; 4; 6; 2]%positive.

Definition example_lines : list (list loc) := [[1; 2; 3; 4]; [5; 6]]%positive.

(** Two words on one line, the first with a NaN abscissa. *)
Definition nan_store : heap :=
  {[ 1%positive := word_box "a" S754_nan f_0_10;
     2%positive := word_box "b" f_0_05 f_0_10 ]}.

(** A word without [bbox] and a well-formed one. *)
Definition bad_store : heap :=
  {[ 1%positive := {[ "text" := VStr (of_string "a") ]};
     2%positive := word_box "b" f_0_05 f_0_10 ]}.

(** ** [format_json] and [main] *)

(** [sep.join(items)] on strings. *)
Fixpoint py_join (sep : pystr) (items : list pystr) : pystr :=
  match items with
  | [] => []
  | s :: rest =>
      match rest with
      | [] => s
      | _ :: _ => s ++ sep ++ py_join sep rest
      end
  end.

Fixpoint map_R {A B} (f : A -> result B) (l : list A) : result (list B) :=
  match l with
  | [] => Ok []
  | a :: l' => b ← f a; bs ← map_R f l'; mret (b :: bs)
  end.

(** What [join] asks of an item: it must be a [str]. *)
Definition as_str (v : value) : result pystr :=
  match v with
  | VStr s => Ok s
  | _ => Raise TypeError
  end.

(** [" ".join(word["text"] for word in line)]: [join] first drains the
    generator, so every [word["text"]] is looked up before any item is
    checked; then the first item that is not a [str] raises. *)
Definition join_line (line : list loc) : M pystr :=
  texts ← map_M (fun word => getitem word "text") line;
  strs ← lift (map_R as_str texts);
  mret (py_join [32%N] strs).

(** The document [json.load] hands to [format_json], in the shape the
    function reads: an object whose [pages], when the key is there, is a list
    of page objects, and a page whose [words], when the key is there, is a
    list of word dicts (references into the store). *)
Record page := { words_of : option (list loc) }.
Record document := { pages_of : option (list page) }.

(** [format_json] from the point where the file is loaded: [data] is what
    [json.load(f)] returned. *)
Definition format_json (data : document) : M (list pystr) :=
  let pages := default [] (pages_of data) in
  match pages with
  | [] => lift (Raise ValueError)
  | page :: _ =>
      let words := default [] (words_of page) in
      match words with
      | [] => mret []
      | _ :: _ =>
          lines ← sort_file words y_tol_default;
          map_M join_line lines
      end
  end.

(** What opening and parsing the file came to: an exception that [main]
    catches ([IOError] from [open], [ValueError] from [json.load]), or the
    document. *)
Inductive loaded :=
  | LoadFailed
  | Loaded (data : document).

(** What [main] prints before it returns. *)
Inductive printed :=
  | PrintedError
  | PrintedName (first last : pystr)
  | PrintedNotFound.

(** [if first_name and last_name]: [None] and the empty string are false. *)
Definition truthy (name : option pystr) : bool :=
  match name with
  | Some (_ :: _) => true
  | _ => false
  end.

(** [except (IOError, ValueError)]: of the exceptions of this file the
    handler takes [ValueError] and its subclass. *)
Definition caught (e : exn) : bool :=
  match e with
  | ValueError | UnicodeEncodeError => true
  | _ => false
  end.

(** The code points a strict UTF-8 stream encodes: all but the
    surrogates. *)
Definition utf8_encodable (c : char) : bool :=
  negb ((55296 <=? c) && (c <=? 57343))%N.

Section Driver.
Context (isspace isupper : char -> bool).
(** Whether the standard output can encode a code point.  The two messages
    of [main], the blank [print] puts between the names and the line end
    are ASCII, which the stream is taken to encode; the names come from the
    input. *)
Context (encodable : char -> bool).

(** [print(first_name, last_name)]: writing a string with a code point the
    stream cannot encode raises [UnicodeEncodeError]. *)
Definition print_names (first_name last_name : pystr) : result printed :=
  if forallb encodable first_name && forallb encodable last_name
  then Ok (PrintedName first_name last_name)
  else Raise UnicodeEncodeError.

(** [main]: a computation that returns what was printed, or raises the
    exception that [main] does not catch.  Only the call of [format_json]
    stands in the [try]. *)
Definition main (file : loaded) : M printed :=
  match file with
  | LoadFailed => mret PrintedError
  | Loaded data => fun h =>
      match format_json data h with
      | (h', Raise e) =>
          if caught e then (h', Ok PrintedError) else (h', Raise e)
      | (h', Ok lines_text) =>
          match extract_patient_name isspace isupper lines_text
                  default_markers with
          | Raise e => (h', Raise e)
          | Ok (first_name, last_name) =>
              if truthy first_name && truthy last_name
              then (h', print_names (default [] first_name)
                                    (default [] last_name))
              else (h', Ok PrintedNotFound)
          end
      end
  end.

End Driver.

(** The text of a word, when it is a string. *)
Definition text_of (h : heap) (w : loc) : pystr :=
  match (h !!! w) !! "text" with
  | Some (VStr s) => s
  | _ => []
  end.

(** The pure part of [join_line]. *)
Definition line_text (h : heap) (line : list loc) : result pystr :=
  texts ← map_R (fun w => dict_get (h !!! w) "text") line;
  strs ← map_R as_str texts;
  mret (py_join [32%N] strs).

(** The words [ws] stand in the text [t] in this order, one after the
    other. *)
Fixpoint embeds (ws : list pystr) (t : pystr) : Prop :=
  match ws with
  | [] => True
  | w :: ws' => exists pre post, t = pre ++ w ++ post /\ embeds ws' post
  end.

(** A document of one page with the example words and one whose only word
    has no [bbox]. *)
Definition example_document : document :=
  {| pages_of := Some [ {| words_of := Some example_words |} ] |}.

Definition bad_document : document :=
  {| pages_of := Some [ {| words_of := Some [2; 1]%positive |} ] |}.

(** A complete word box beside one that has its [bbox] and no [text]. *)
Definition textless_store : heap :=
  {[ 1%positive := word_box "a" f_0_05 f_0_10;
     2%positive := delete "text" (word_box "b" f_0_15 f_0_10) ]}.

Definition textless_document : document :=
  {| pages_of := Some [ {| words_of := Some [1; 2]%positive |} ] |}.

(** Two words on one line, the one further right first in the input, and a
    third word on the next line whose abscissa is NaN. *)
Definition nan_elsewhere_store : heap :=
  {[ 1%positive := word_box "b" f_0_15 f_0_10;
     2%positive := word_box "a" f_0_05 f_0_10;
     3%positive := word_box "c" S754_nan f_0_20 ]}.

(** A word box whose ordinate is NaN, and the document of that one word. *)
Definition nan_line_store : heap :=
  {[ 1%positive := word_box "a" f_0_05 S754_nan ]}.

Definition nan_line_document : document :=
  {| pages_of := Some [ {| words_of := Some [1%positive] |} ] |}.

(** * Properties *)

(** ** Tactics *)

Ltac munfold :=
  unfold mbind, mret, M_bind, M_ret, result_bind, result_ret, lift,
    getitem, setitem in *.

Ltac unfold_avg :=
  unfold annotated, avg_of, dict_get, subscript, mbind, result_bind.

Ltac case_len :=
  match goal with
  | |- context [(2 <=? ?n)%nat] => destruct (2 <=? n)%nat eqn:Hlen
  end.

Ltac in_list H :=
  repeat (apply elem_of_cons in H as [->|H]); [..|by apply elem_of_nil in H].

(** [float_coordinates] of a concrete word box. *)
Ltac float_coords :=
  let b := fresh "b" in let c := fresh "c" in let v := fresh "v" in
  let Hb := fresh "Hb" in let Hc := fresh "Hc" in let Hv := fresh "Hv" in
  intros b c v Hb Hc Hv; vm_compute in Hb;
  first [ discriminate Hb
        | injection Hb as <-; in_list Hc; vm_compute in Hv;
          injection Hv as <-; eauto ].

(** ** The store monad *)

Lemma bind_ok {A B} (m : M A) (f : A -> M B) h h' a :
  m h = (h', Ok a) -> (m ≫= f) h = f a h'.
Proof. intros E. unfold mbind, M_bind. by rewrite E. Qed.

Lemma bind_raise {A B} (m : M A) (f : A -> M B) h h' e :
  m h = (h', Raise e) -> (m ≫= f) h = (h', Raise e).
Proof. intros E. unfold mbind, M_bind. by rewrite E. Qed.

Lemma read_only_bind {A B} (m : M A) (f : A -> M B) :
  read_only m -> (forall a, read_only (f a)) -> read_only (m ≫= f).
Proof.
  intros Hm Hf h. unfold mbind, M_bind.
  specialize (Hm h). destruct (m h) as [h' [a|e]]; simpl in *; subst.
  - apply Hf.
  - done.
Qed.

Lemma read_only_ret {A} (a : A) : read_only (mret a).
Proof. done. Qed.

Lemma read_only_lift {A} (r : result A) : read_only (lift r).
Proof. done. Qed.

Lemma read_only_getitem w k : read_only (getitem w k).
Proof. done. Qed.

Lemma read_only_map_M {A B} (f : A -> M B) l :
  (forall a, read_only (f a)) -> read_only (map_M f l).
Proof.
  intros Hf. induction l as [|a l IH]; [done|].
  simpl. apply read_only_bind; [done|]. intros b.
  apply read_only_bind; [done|]. intros bs. done.
Qed.

(** ** [annotate] on one word *)

Lemma average_eq w lo hi h : average w lo hi h = (h, avg_of (h !!! w) lo hi).
Proof.
  unfold average, avg_of. munfold.
  destruct (dict_get (h !!! w) "bbox") as [b|e]; [|done].
  destruct (subscript b lo); [|done].
  destruct (subscript b hi); [|done].
  by destruct (py_add _ _).
Qed.

Lemma avg_of_ext d1 d2 lo hi :
  d1 !! "bbox" = d2 !! "bbox" -> avg_of d1 lo hi = avg_of d2 lo hi.
Proof. intros E. unfold avg_of, dict_get. by rewrite E. Qed.

Lemma avg_of_float d lo hi v : avg_of d lo hi = Ok v -> exists f, v = VFloat f.
Proof.
  unfold avg_of. munfold.
  destruct (dict_get d "bbox") as [b|]; [|done].
  destruct (subscript b lo) as [a0|]; [|done].
  destruct (subscript b hi) as [b0|]; [|done].
  destruct (py_add a0 b0) as [s|]; [|done].
  unfold py_truediv. destruct s; try done.
  destruct (is_zero two); [done|]. intros [= <-]. eauto.
Qed.

Lemma annotate_eq w h :
  annotate w h = (write w (annotated (h !!! w)).1 h, (annotated (h !!! w)).2).
Proof.
  unfold annotate, annotated.
  unfold mbind at 1, M_bind at 1. rewrite average_eq.
  destruct (avg_of (h !!! w) "y_min" "y_max") as [y|e] eqn:Ey; [|done].
  unfold mbind at 1, M_bind at 1. unfold setitem at 1.
  unfold mbind at 1, M_bind at 1. rewrite average_eq.
  rewrite lookup_total_insert_eq.
  rewrite (avg_of_ext _ (h !!! w)) by (by rewrite lookup_insert_ne).
  destruct (avg_of (h !!! w) "x_min" "x_max") as [x|e] eqn:Ex; [|done].
  unfold setitem. simpl. rewrite lookup_total_insert_eq.
  by rewrite insert_insert_eq.
Qed.

(** [annotate] never touches a key other than the two it attaches. *)
Lemma annotated_frame d d' r k :
  annotated d = (Some d', r) -> k <> "y_avg" -> k <> "x_avg" ->
  d' !! k = d !! k.
Proof.
  unfold annotated. intros E Hy Hx.
  destruct (avg_of d "y_min" "y_max"); [|done].
  destruct (avg_of d "x_min" "x_max"); simplify_eq.
  - by rewrite !lookup_insert_ne.
  - by rewrite lookup_insert_ne.
Qed.

Lemma annotated_bbox d d' r :
  annotated d = (Some d', r) -> d' !! "bbox" = d !! "bbox".
Proof. intros E. by eapply annotated_frame. Qed.

(** What it attaches is determined by the [bbox], so a second pass over the
    same dict stores the same values. *)
Lemma annotated_idem d d' r :
  annotated d = (Some d', r) -> annotated d' = (Some d', r).
Proof.
  intros E. pose proof (annotated_bbox _ _ _ E) as Hb.
  revert E. unfold annotated.
  rewrite !(avg_of_ext d' d) by done.
  destruct (avg_of d "y_min" "y_max") as [y|]; [|done].
  destruct (avg_of d "x_min" "x_max") as [x|]; intros [= <- <-].
  - f_equal. f_equal. apply map_eq. intros k.
    rewrite !lookup_insert. repeat case_decide; simplify_eq; done.
  - f_equal. f_equal. by rewrite insert_insert_eq.
Qed.

Lemma annotated_none_ok d : annotated d = (None, Ok tt) -> False.
Proof.
  unfold annotated. destruct (avg_of d "y_min" "y_max"); [|done].
  by destruct (avg_of d "x_min" "x_max").
Qed.

Lemma annotated_ok_fields d d' :
  annotated d = (Some d', Ok tt) ->
  exists fy fx, d' !! "y_avg" = Some (VFloat fy) /\
                d' !! "x_avg" = Some (VFloat fx).
Proof.
  unfold annotated.
  destruct (avg_of d "y_min" "y_max") as [y|] eqn:Ey; [|done].
  destruct (avg_of d "x_min" "x_max") as [x|] eqn:Ex; [|done].
  intros [= <-].
  apply avg_of_float in Ey as [fy ->]. apply avg_of_float in Ex as [fx ->].
  exists fy, fx. by rewrite lookup_insert_ne, !lookup_insert_eq.
Qed.

Lemma annotated_some_y d d' r :
  annotated d = (Some d', r) -> exists fy, d' !! "y_avg" = Some (VFloat fy).
Proof.
  unfold annotated.
  destruct (avg_of d "y_min" "y_max") as [y|] eqn:Ey; [|done].
  apply avg_of_float in Ey as [fy ->].
  destruct (avg_of d "x_min" "x_max") as [x|] eqn:Ex; intros [= <- <-];
    exists fy.
  - by rewrite lookup_insert_ne, lookup_insert_eq.
  - by rewrite lookup_insert_eq.
Qed.

Lemma write_lookup_ne w w' o (h : heap) :
  w <> w' -> write w o h !! w' = h !! w'.
Proof. intros. destruct o; simpl; [by rewrite lookup_insert_ne|done]. Qed.

Lemma write_settled w o (h h' : heap) :
  write w o h = h -> h' !! w = h !! w -> write w o h' = h'.
Proof.
  destruct o as [d|]; simpl; [|done]. intros E Hw.
  apply insert_id. rewrite Hw, <- E. by rewrite lookup_insert_eq.
Qed.

Lemma lookup_total_heap_eq (h h' : heap) w :
  h' !! w = h !! w -> h' !!! w = h !!! w.
Proof. intros E. by rewrite !lookup_total_alt, E. Qed.

(** A second [annotate] of the same word changes nothing and ends the same
    way. *)
Lemma annotate_idem w h h' r :
  annotate w h = (h', r) -> annotate w h' = (h', r).
Proof.
  rewrite !annotate_eq. intros [= Hh Hr].
  destruct (annotated (h !!! w)) as [[d|] r0] eqn:E; simpl in *; subst.
  - rewrite lookup_total_insert_eq. rewrite (annotated_idem _ _ _ E). simpl.
    by rewrite insert_insert_eq.
  - by rewrite E.
Qed.

(** A word on which [annotate] changes nothing stays so when another word is
    annotated. *)
Lemma annotate_settled w w' h h' r r' :
  annotate w h = (h, r) -> annotate w' h = (h', r') -> annotate w h' = (h', r).
Proof.
  intros Hw Hw'. destruct (decide (w = w')) as [->|Hne].
  { rewrite Hw in Hw'. by simplify_eq. }
  rewrite annotate_eq in Hw'. injection Hw' as Hh' _.
  assert (h' !! w = h !! w) as Hlk.
  { rewrite <- Hh'. by apply write_lookup_ne. }
  rewrite annotate_eq in Hw |- *. injection Hw as Hh Hr.
  rewrite (lookup_total_heap_eq _ _ _ Hlk). rewrite Hr.
  f_equal. by eapply write_settled.
Qed.

(** ** The first loop *)

Lemma for_each_cons {A} (body : A -> M unit) a l h :
  for_each body (a :: l) h =
  match body a h with
  | (h', Ok _) => for_each body l h'
  | (h', Raise e) => (h', Raise e)
  end.
Proof. done. Qed.

(** Words that are settled when the loop starts are settled when it ends,
    and running the loop again from the store it ended in changes nothing. *)
Lemma annotate_all_settled ws : forall h h1 r (done : list (loc * result unit)),
  for_each annotate ws h = (h1, r) ->
  Forall (fun p => annotate p.1 h = (h, p.2)) done ->
  Forall (fun p => annotate p.1 h1 = (h1, p.2)) done /\
  for_each annotate ws h1 = (h1, r).
Proof.
  induction ws as [|w ws IH]; intros h h1 r done Hrun Hdone.
  { simpl in Hrun. injection Hrun as <- <-. done. }
  rewrite for_each_cons in Hrun.
  destruct (annotate w h) as [h' [[]|e]] eqn:Ew.
  - destruct (IH h' h1 r ((w, Ok tt) :: done) Hrun) as [Hd Hr].
    { constructor; [by eapply annotate_idem|].
      eapply Forall_impl; [exact Hdone|]. intros [w0 r0] H0; simpl in *.
      by eapply annotate_settled. }
    apply Forall_cons in Hd as [Hw Hd']. simpl in Hw.
    split; [done|]. rewrite for_each_cons, Hw. done.
  - injection Hrun as <- <-. split.
    + eapply Forall_impl; [exact Hdone|]. intros [w0 r0] H0; simpl in *.
      by eapply annotate_settled.
    + rewrite for_each_cons. by rewrite (annotate_idem _ _ _ _ Ew).
Qed.

Lemma annotate_all_idem ws h h1 r :
  for_each annotate ws h = (h1, r) -> for_each annotate ws h1 = (h1, r).
Proof. intros H. by destruct (annotate_all_settled ws h h1 r [] H). Qed.

(** The loop attaches [y_avg] and [x_avg] and changes nothing else. *)
Lemma annotate_frame w h h' r l k :
  annotate w h = (h', r) -> k <> "y_avg" -> k <> "x_avg" ->
  (h' !!! l) !! k = (h !!! l) !! k.
Proof.
  rewrite annotate_eq. intros [= <- _] Hy Hx.
  destruct (annotated (h !!! w)) as [[d|] r0] eqn:E; simpl; [|done].
  destruct (decide (w = l)) as [->|Hne].
  - rewrite lookup_total_insert_eq. by eapply annotated_frame.
  - by rewrite lookup_total_insert_ne.
Qed.

Lemma annotate_all_frame ws : forall h h1 r l k,
  for_each annotate ws h = (h1, r) -> k <> "y_avg" -> k <> "x_avg" ->
  (h1 !!! l) !! k = (h !!! l) !! k.
Proof.
  induction ws as [|w ws IH]; intros h h1 r l k Hrun Hy Hx.
  { simpl in Hrun. by injection Hrun as <- <-. }
  rewrite for_each_cons in Hrun.
  destruct (annotate w h) as [h' [[]|e]] eqn:Ew.
  - rewrite (IH _ _ _ _ _ Hrun Hy Hx). by eapply annotate_frame.
  - injection Hrun as <- <-. by eapply annotate_frame.
Qed.

Lemma annotate_other w h h' r l :
  annotate w h = (h', r) -> l <> w -> h' !! l = h !! l.
Proof.
  rewrite annotate_eq. intros [= <- _] Hne. by apply write_lookup_ne.
Qed.

Lemma annotate_all_other ws : forall h h1 r l,
  for_each annotate ws h = (h1, r) -> l ∉ ws -> h1 !! l = h !! l.
Proof.
  induction ws as [|w ws IH]; intros h h1 r l Hrun Hl.
  { simpl in Hrun. by injection Hrun as <- <-. }
  apply not_elem_of_cons in Hl as [Hne Hl].
  rewrite for_each_cons in Hrun.
  destruct (annotate w h) as [h' [[]|e]] eqn:Ew.
  - rewrite (IH _ _ _ _ Hrun Hl). by eapply annotate_other.
  - injection Hrun as <- <-. by eapply annotate_other.
Qed.

Lemma float_field_some k h w :
  is_Some (float_field k h w) <-> exists f, (h !!! w) !! k = Some (VFloat f).
Proof.
  unfold float_field. split.
  - intros [f Hf]. destruct ((h !!! w) !! k) as [[]|]; naive_solver.
  - intros [f ->]. eauto.
Qed.

Lemma annotate_keeps_averages w h h' r l :
  annotate w h = (h', r) -> has_averages h l -> has_averages h' l.
Proof.
  rewrite annotate_eq. intros [= <- _].
  destruct (annotated (h !!! w)) as [[d|] r0] eqn:E; simpl; [|done].
  destruct (decide (w = l)) as [->|Hne]; last first.
  { unfold has_averages, x_avg_of, y_avg_of, float_field.
    by rewrite lookup_total_insert_ne. }
  unfold has_averages, x_avg_of, y_avg_of. rewrite !float_field_some.
  rewrite lookup_total_insert_eq. intros [[fy Hy] [fx Hx]].
  revert E. unfold annotated.
  destruct (avg_of (h !!! l) "y_min" "y_max") as [y|] eqn:Ey; [|done].
  apply avg_of_float in Ey as [gy ->].
  destruct (avg_of (h !!! l) "x_min" "x_max") as [x|] eqn:Ex.
  - apply avg_of_float in Ex as [gx ->]. intros [= <-].
    split; [exists gy|exists gx].
    + by rewrite lookup_insert_ne, lookup_insert_eq.
    + by rewrite lookup_insert_eq.
  - intros [= <-]. split; [exists gy|exists fx].
    + by rewrite lookup_insert_eq.
    + by rewrite lookup_insert_ne.
Qed.

Lemma annotate_ok_averages w h h' :
  annotate w h = (h', Ok tt) -> has_averages h' w.
Proof.
  rewrite annotate_eq. intros [= <- Hr].
  destruct (annotated (h !!! w)) as [[d|] r0] eqn:E; simpl in *; subst.
  - apply annotated_ok_fields in E as (fy & fx & Hy & Hx).
    unfold has_averages, x_avg_of, y_avg_of. rewrite !float_field_some.
    rewrite lookup_total_insert_eq. eauto.
  - by apply annotated_none_ok in E.
Qed.

Lemma annotate_all_keeps ws : forall h h1 r l,
  for_each annotate ws h = (h1, r) -> has_averages h l -> has_averages h1 l.
Proof.
  induction ws as [|w ws IH]; intros h h1 r l Hrun Hl.
  { simpl in Hrun. by injection Hrun as <- <-. }
  rewrite for_each_cons in Hrun.
  destruct (annotate w h) as [h' [[]|e]] eqn:Ew.
  - eapply IH; [exact Hrun|]. by eapply annotate_keeps_averages.
  - injection Hrun as <- <-. by eapply annotate_keeps_averages.
Qed.

Lemma annotate_all_averages ws : forall h h1,
  for_each annotate ws h = (h1, Ok tt) -> Forall (has_averages h1) ws.
Proof.
  induction ws as [|w ws IH]; intros h h1 Hrun; [constructor|].
  rewrite for_each_cons in Hrun.
  destruct (annotate w h) as [h' [[]|e]] eqn:Ew; [|done].
  constructor; [|by eapply IH].
  eapply annotate_all_keeps; [exact Hrun|]. by eapply annotate_ok_averages.
Qed.

(** ** [sorted] *)

Section SortedFacts.
Context {A K : Type} (lt : K -> K -> bool) (key : A -> K).

Lemma insert_sorted_perm x l : insert_sorted lt key x l ≡ₚ x :: l.
Proof.
  induction l as [|y l IH]; simpl; [done|].
  destruct (lt (key y) (key x)); [|done].
  rewrite IH. apply Permutation_swap.
Qed.

Lemma py_sorted_perm l : py_sorted lt key l ≡ₚ l.
Proof.
  induction l as [|x l IH]; simpl; [done|].
  by rewrite insert_sorted_perm, IH.
Qed.

Lemma insert_sorted_hd x y l :
  ordered lt key y x -> HdRel (ordered lt key) y l ->
  HdRel (ordered lt key) y (insert_sorted lt key x l).
Proof.
  intros Hyx Hl. destruct l as [|z l]; simpl; [by constructor|].
  destruct (lt (key z) (key x)); constructor; [|done].
  by inversion Hl.
Qed.

(** Sortedness needs [<] to be asymmetric only. *)
Lemma insert_sorted_ordered x l :
  (forall a b, lt a b = true -> lt b a = false) ->
  Sorted (ordered lt key) l ->
  Sorted (ordered lt key) (insert_sorted lt key x l).
Proof.
  intros Hasym. induction 1 as [|y l Hl IH Hhd]; simpl.
  { repeat constructor. }
  destruct (lt (key y) (key x)) eqn:E.
  - constructor; [done|]. apply insert_sorted_hd; [|done].
    by apply Hasym.
  - constructor; [by constructor|]. by constructor.
Qed.

Lemma py_sorted_ordered l :
  (forall a b, lt a b = true -> lt b a = false) ->
  Sorted (ordered lt key) (py_sorted lt key l).
Proof.
  intros Hasym. induction l as [|x l IH]; simpl; [constructor|].
  by apply insert_sorted_ordered.
Qed.

(** Stability: words that [<] does not tell apart keep their input order. *)
Lemma insert_sorted_filter (P : A -> Prop) `{!forall a, Decision (P a)} x l :
  (forall a b, P a -> P b -> lt (key a) (key b) = false) ->
  filter P (insert_sorted lt key x l) = filter P (x :: l).
Proof.
  intros Hties. induction l as [|y l IH]; simpl; [done|].
  destruct (lt (key y) (key x)) eqn:E; [|done].
  rewrite filter_cons, IH, !filter_cons.
  destruct (decide (P y)) as [Hy|]; [|done].
  destruct (decide (P x)) as [Hx|]; [|done].
  by rewrite (Hties y x Hy Hx) in E.
Qed.

Lemma py_sorted_filter (P : A -> Prop) `{!forall a, Decision (P a)} l :
  (forall a b, P a -> P b -> lt (key a) (key b) = false) ->
  filter P (py_sorted lt key l) = filter P l.
Proof.
  intros Hties. induction l as [|x l IH]; simpl; [done|].
  rewrite insert_sorted_filter by done. by rewrite !filter_cons, IH.
Qed.
End SortedFacts.

(** Sorting decorated pairs by their first component is sorting by the
    decoration. *)
Lemma insert_sorted_decorate {A K} (lt : K -> K -> bool) (x : A -> K) w l :
  insert_sorted lt fst (x w, w) ((fun w => (x w, w)) <$> l) =
  (fun w => (x w, w)) <$> insert_sorted lt x w l.
Proof.
  induction l as [|y l IH]; simpl; [done|].
  destruct (lt (x y) (x w)); simpl; [|done]. f_equal. apply IH.
Qed.

Lemma py_sorted_decorate {A K} (lt : K -> K -> bool) (x : A -> K) l :
  snd <$> py_sorted lt fst ((fun w => (x w, w)) <$> l) = py_sorted lt x l.
Proof.
  assert (py_sorted lt fst ((fun w => (x w, w)) <$> l) =
          (fun w => (x w, w)) <$> py_sorted lt x l) as ->.
  { induction l as [|w l IH]; [done|].
    rewrite fmap_cons. cbn [py_sorted]. rewrite IH.
    apply insert_sorted_decorate. }
  rewrite <- list_fmap_compose. apply list_fmap_id.
Qed.

(** ** The second loop *)

Lemma read_only_bucket_key y_tol w : read_only (bucket_key y_tol w).
Proof.
  unfold bucket_key. apply read_only_bind; [done|]. intros y.
  apply read_only_bind; [done|]. intros q. done.
Qed.

Lemma bucket_key_eq y_tol w h : bucket_key y_tol w h = (h, key_of y_tol h w).
Proof.
  unfold key_of. pose proof (read_only_bucket_key y_tol w h) as E.
  destruct (bucket_key y_tol w h) as [h' r]. simpl in *. by subst.
Qed.

Lemma read_only_group y_tol ws : forall b, read_only (group y_tol ws b).
Proof.
  induction ws as [|w ws IH]; intros b; simpl; [done|].
  apply read_only_bind; [apply read_only_bucket_key|]. intros k. apply IH.
Qed.

Lemma keyf_ok y_tol h w k : key_of y_tol h w = Ok k -> keyf y_tol h w = k.
Proof. unfold keyf. by intros ->. Qed.

Lemma group_ok y_tol ws : forall b h h' b',
  group y_tol ws b h = (h', Ok b') ->
  h' = h /\ Forall (fun w => is_ok (key_of y_tol h w) = true) ws /\
  b' = fill y_tol h ws b.
Proof.
  induction ws as [|w ws IH]; intros b h h' b' Hrun; simpl in Hrun.
  { injection Hrun as <- <-. by repeat split. }
  unfold mbind, M_bind in Hrun. rewrite bucket_key_eq in Hrun.
  destruct (key_of y_tol h w) as [k|e] eqn:Ek; [|done].
  apply IH in Hrun as (-> & Hks & ->). split; [done|]. split.
  - constructor; [by rewrite Ek|done].
  - unfold fill. simpl. by rewrite (keyf_ok _ _ _ _ Ek).
Qed.

Lemma group_total y_tol ws : forall b h,
  Forall (fun w => is_ok (key_of y_tol h w) = true) ws ->
  group y_tol ws b h = (h, Ok (fill y_tol h ws b)).
Proof.
  induction ws as [|w ws IH]; intros b h Hks; [done|].
  apply Forall_cons in Hks as [Hk Hks]. simpl.
  unfold mbind, M_bind. rewrite bucket_key_eq.
  destruct (key_of y_tol h w) as [k|e] eqn:Ek; [|done].
  rewrite (IH _ _ Hks). unfold fill. simpl.
  by rewrite (keyf_ok _ _ _ _ Ek).
Qed.

(** A bucket holds the words of the input with its key, in input order. *)
Lemma fill_lookup y_tol h ws : forall b k,
  fill y_tol h ws b !! k =
  match bucket_of y_tol h ws k with
  | [] => b !! k
  | l => Some (default [] (b !! k) ++ l)
  end.
Proof.
  unfold fill, bucket_of.
  induction ws as [|w ws IH]; intros b k; [done|].
  simpl. rewrite IH. rewrite filter_cons. unfold setdefault_append.
  destruct (decide (keyf y_tol h w = k)) as [<-|Hne].
  - rewrite lookup_insert_eq. simpl.
    destruct (filter _ ws) as [|w' l]; [done|].
    by rewrite <- app_assoc.
  - by rewrite lookup_insert_ne.
Qed.

Lemma fill_empty_lookup y_tol h ws k :
  fill y_tol h ws ∅ !! k =
  match bucket_of y_tol h ws k with
  | [] => None
  | l => Some l
  end.
Proof. rewrite fill_lookup, lookup_empty. by destruct (bucket_of _ _ _ _). Qed.

Lemma bucket_of_nonempty y_tol h ws k :
  bucket_of y_tol h ws k <> [] <-> exists w, w ∈ ws /\ keyf y_tol h w = k.
Proof.
  unfold bucket_of. split.
  - intros Hne. destruct (filter _ ws) as [|w l] eqn:E; [done|].
    exists w.
    assert (w ∈ filter (fun w => keyf y_tol h w = k) ws) as Hin
      by (rewrite E; left).
    apply list_elem_of_filter in Hin. tauto.
  - intros (w & Hw & Hk) E.
    assert (w ∈ filter (fun w => keyf y_tol h w = k) ws) as Hin
      by (by apply list_elem_of_filter).
    rewrite E in Hin. by apply elem_of_nil in Hin.
Qed.

Lemma fill_empty_total y_tol h ws k :
  is_Some (fill y_tol h ws ∅ !! k) ->
  fill y_tol h ws ∅ !!! k = bucket_of y_tol h ws k.
Proof.
  rewrite lookup_total_alt, fill_empty_lookup.
  destruct (bucket_of _ _ _ _); [by intros [? ?]|done].
Qed.

(** ** The keys of the lines *)

Lemma line_keys_elem y_tol h ws k :
  k ∈ line_keys y_tol h ws <-> exists w, w ∈ ws /\ keyf y_tol h w = k.
Proof.
  unfold line_keys. rewrite py_sorted_perm.
  rewrite <- bucket_of_nonempty. rewrite list_elem_of_fmap. split.
  - intros ([k' l] & -> & Hin). apply elem_of_map_to_list in Hin.
    simpl. rewrite fill_empty_lookup in Hin.
    by destruct (bucket_of y_tol h ws k').
  - intros Hne. exists (k, bucket_of y_tol h ws k). split; [done|].
    apply elem_of_map_to_list. rewrite fill_empty_lookup.
    by destruct (bucket_of y_tol h ws k).
Qed.

Lemma line_keys_NoDup y_tol h ws : NoDup (line_keys y_tol h ws).
Proof.
  unfold line_keys. rewrite py_sorted_perm. apply NoDup_fst_map_to_list.
Qed.

Lemma Sorted_weaken {A} (R S : A -> A -> Prop) l :
  (forall a b, R a b -> S a b) -> Sorted R l -> Sorted S l.
Proof.
  intros HRS. induction 1 as [|a l Hl IH Hhd]; constructor; [done|].
  destruct Hhd; constructor. by apply HRS.
Qed.

Lemma strictly_sorted (l : list Z) :
  Sorted (ordered Z.ltb id) l -> NoDup l -> StronglySorted Z.lt l.
Proof.
  intros Hs Hnd.
  assert (StronglySorted Z.le l) as Hle.
  { apply Sorted_StronglySorted; [intros x y z; apply Z.le_trans|].
    eapply Sorted_weaken; [|exact Hs].
    intros a b. unfold ordered, id. intros Hab. by apply Z.ltb_ge in Hab. }
  clear Hs. induction Hle as [|a l Hl IH Ha]; [constructor|].
  apply NoDup_cons in Hnd as [Hnin Hnd]. constructor; [by apply IH|].
  apply Forall_forall. intros b Hb.
  rewrite Forall_forall in Ha. specialize (Ha b Hb).
  assert (a <> b) by (intros ->; done). lia.
Qed.

Lemma line_keys_sorted y_tol h ws : StronglySorted Z.lt (line_keys y_tol h ws).
Proof.
  apply strictly_sorted; [|apply line_keys_NoDup].
  apply py_sorted_ordered. intros a b Hab.
  apply Z.ltb_lt in Hab. apply Z.ltb_ge. lia.
Qed.

(** ** The third loop *)

Lemma map_M_ok {A B} (f : A -> M B) (g : A -> B) l h :
  Forall (fun a => f a h = (h, Ok (g a))) l ->
  map_M f l h = (h, Ok (g <$> l)).
Proof.
  induction 1 as [|a l Ha Hl IH]; [done|].
  simpl. unfold mbind at 1, M_bind at 1. rewrite Ha.
  unfold mbind at 1, M_bind at 1. by rewrite IH.
Qed.

Lemma xf_some h w x : x_avg_of h w = Some x -> xf h w = x.
Proof. unfold xf. by intros ->. Qed.

Lemma sort_line_ok bucket h :
  Forall (fun w => is_Some (x_avg_of h w)) bucket ->
  sort_line bucket h = (h, Ok (py_sorted SFltb (xf h) bucket)).
Proof.
  intros Hx. unfold sort_line. unfold mbind at 1, M_bind at 1.
  rewrite (map_M_ok _ (fun w => (xf h w, w))).
  - unfold mret, M_ret. by rewrite py_sorted_decorate.
  - eapply Forall_impl; [exact Hx|]. intros w [x Hw].
    unfold mbind, M_bind, getitem, lift, dict_get.
    rewrite (xf_some _ _ _ Hw).
    revert Hw. unfold x_avg_of, float_field.
    by destruct ((h !!! w) !! "x_avg") as [[]|]; intros [= ->].
Qed.

Lemma read_only_sort_line bucket : read_only (sort_line bucket).
Proof.
  unfold sort_line. apply read_only_bind; [|done].
  apply read_only_map_M. intros w.
  apply read_only_bind; [done|]. intros v.
  apply read_only_bind; [done|]. done.
Qed.

(** ** The shape of the result *)

Lemma sort_file_unfold ws y_tol h :
  sort_file ws y_tol h =
  match for_each annotate ws h with
  | (h1, Ok _) =>
      match group y_tol ws ∅ h1 with
      | (h2, Ok buckets) =>
          map_M (fun key => sort_line (buckets !!! key))
                (py_sorted Z.ltb id (map_to_list buckets).*1) h2
      | (h2, Raise e) => (h2, Raise e)
      end
  | (h1, Raise e) => (h1, Raise e)
  end.
Proof. done. Qed.

Lemma bucket_of_subset y_tol h ws k w :
  w ∈ bucket_of y_tol h ws k -> w ∈ ws.
Proof. unfold bucket_of. rewrite list_elem_of_filter. tauto. Qed.

Lemma sort_lines_ok y_tol h ws :
  Forall (has_averages h) ws ->
  map_M (fun key => sort_line (fill y_tol h ws ∅ !!! key))
        (line_keys y_tol h ws) h = (h, Ok (lines_of y_tol h ws)).
Proof.
  intros Hav. unfold lines_of. apply map_M_ok.
  apply Forall_forall. intros k Hk.
  assert (is_Some (fill y_tol h ws ∅ !! k)) as Hsome.
  { apply line_keys_elem, bucket_of_nonempty in Hk.
    rewrite fill_empty_lookup. by destruct (bucket_of y_tol h ws k). }
  rewrite (fill_empty_total _ _ _ _ Hsome). apply sort_line_ok.
  apply Forall_forall. intros w Hw. apply bucket_of_subset in Hw.
  rewrite Forall_forall in Hav. by destruct (Hav w Hw).
Qed.

(** When [sort_file] returns, the first loop has run to its end, every
    bucket key could be computed, and the lines are [lines_of]. *)
Lemma sort_file_ok ws y_tol h h1 lines :
  sort_file ws y_tol h = (h1, Ok lines) ->
  for_each annotate ws h = (h1, Ok tt) /\
  Forall (fun w => is_ok (key_of y_tol h1 w) = true) ws /\
  Forall (has_averages h1) ws /\
  lines = lines_of y_tol h1 ws.
Proof.
  rewrite sort_file_unfold.
  destruct (for_each annotate ws h) as [h' [[]|e]] eqn:E1; [|done].
  destruct (group y_tol ws ∅ h') as [h2 [b|e]] eqn:E2; [|done].
  apply group_ok in E2 as (-> & Hks & ->).
  pose proof (annotate_all_averages _ _ _ E1) as Hav.
  change (py_sorted Z.ltb id (map_to_list (fill y_tol h' ws ∅)).*1)
    with (line_keys y_tol h' ws).
  rewrite (sort_lines_ok _ _ _ Hav). intros [= <- <-]. done.
Qed.

(** And it returns whenever the first loop ends and the keys exist. *)
Lemma sort_file_total ws y_tol h h1 :
  for_each annotate ws h = (h1, Ok tt) ->
  Forall (fun w => is_ok (key_of y_tol h1 w) = true) ws ->
  sort_file ws y_tol h = (h1, Ok (lines_of y_tol h1 ws)).
Proof.
  intros E1 Hks. rewrite sort_file_unfold, E1.
  rewrite (group_total _ _ _ _ Hks).
  change (py_sorted Z.ltb id (map_to_list (fill y_tol h1 ws ∅)).*1)
    with (line_keys y_tol h1 ws).
  apply sort_lines_ok. by eapply annotate_all_averages.
Qed.

(** After the first loop the store is only read. *)
Lemma sort_file_store ws y_tol h :
  (sort_file ws y_tol h).1 = (for_each annotate ws h).1.
Proof.
  rewrite sort_file_unfold.
  destruct (for_each annotate ws h) as [h' [[]|e]]; [|done].
  pose proof (read_only_group y_tol ws ∅ h') as Hg.
  destruct (group y_tol ws ∅ h') as [h2 [b|e]]; simpl in *; subst; [|done].
  apply read_only_map_M. intros k. apply read_only_sort_line.
Qed.

(** ** Float comparison *)

Lemma SFcompare_antisym a b c :
  SFcompare a b = Some c -> SFcompare b a = Some (CompOpp c).
Proof.
  destruct a as [sa|sa| |sa ma ea], b as [sb|sb| |sb mb eb]; simpl;
    intros [= <-]; try done;
    try (by destruct sa); try (by destruct sb); try (by destruct sa, sb).
  rewrite (Z.compare_antisym ea eb).
  assert (Pos.compare_cont Eq mb ma = CompOpp (Pos.compare_cont Eq ma mb))
    as -> by (by rewrite (Pos.compare_cont_antisym ma mb Eq)).
  destruct sa, sb; simpl; try done;
    destruct (ea ?= eb)%Z; simpl; done.
Qed.

Lemma SFcompare_defined a b :
  is_nan a = false -> is_nan b = false -> is_Some (SFcompare a b).
Proof. destruct a, b; simpl; try done; eauto. Qed.

(** [<] on floats is asymmetric, NaN or not. *)
Lemma SFltb_asym a b : SFltb a b = true -> SFltb b a = false.
Proof.
  unfold SFltb. destruct (SFcompare a b) as [[]|] eqn:E; try done.
  by rewrite (SFcompare_antisym _ _ _ E).
Qed.

(** Away from NaN, "not above" is [<=]. *)
Lemma SFltb_false_leb a b :
  is_nan a = false -> is_nan b = false ->
  SFltb b a = false -> SFleb a b = true.
Proof.
  intros Ha Hb. destruct (SFcompare_defined a b Ha Hb) as [c E].
  unfold SFltb, SFleb. rewrite E, (SFcompare_antisym _ _ _ E).
  by destruct c.
Qed.

Lemma SFeqb_same a b : SFeqb a b = true <-> same_float a b.
Proof.
  unfold SFeqb. split.
  - destruct (SFcompare a b) as [[]|] eqn:E; try done. intros _.
    destruct a as [sa|sa| |sa ma ea], b as [sb|sb| |sb mb eb];
      simpl in *; try done; try (by destruct sa); try (by destruct sb);
      try (by destruct sa, sb).
    destruct sa, sb; try done; destruct (ea ?= eb)%Z eqn:Ee; try done;
      apply Z.compare_eq in Ee; subst; injection E as H.
    + apply (f_equal CompOpp) in H. rewrite CompOpp_involutive in H.
      simpl in H. apply Pos.compare_eq in H. by subst.
    + apply Pos.compare_eq in H. by subst.
  - destruct a as [sa|sa| |sa ma ea], b as [sb|sb| |sb mb eb];
      simpl; try done.
    + intros ->. by destruct sb.
    + intros (-> & -> & ->). rewrite Z.compare_refl.
      change (Pos.compare_cont Eq mb mb) with (mb ?= mb)%positive.
      rewrite Pos.compare_refl. by destruct sb.
Qed.

(** Two floats equal to a third are not told apart by [<]. *)
Lemma SFltb_ties a b c :
  SFeqb a c = true -> SFeqb b c = true -> SFltb a b = false.
Proof.
  rewrite !SFeqb_same. intros Ha Hb.
  assert (same_float a b) as Hab.
  { destruct a, b, c; simpl in *; try done; [congruence|].
    destruct Ha as (-> & -> & ->), Hb as (-> & -> & ->). done. }
  apply SFeqb_same in Hab. unfold SFeqb, SFltb in *.
  by destruct (SFcompare a b) as [[]|].
Qed.

(** ** Completeness of the lines *)

Lemma filter_by_key_split {A} (kf : A -> Z) k ks (ws : list A) :
  k ∉ ks ->
  filter (fun w => kf w = k) ws ++ filter (fun w => kf w ∈ ks) ws ≡ₚ
  filter (fun w => kf w ∈ k :: ks) ws.
Proof.
  intros Hk. induction ws as [|w ws IH]; [done|].
  rewrite !filter_cons.
  destruct (decide (kf w = k)) as [Heq|Hne].
  - rewrite decide_False by (by rewrite Heq).
    rewrite decide_True by (rewrite Heq; left).
    simpl. by rewrite IH.
  - destruct (decide (kf w ∈ ks)) as [Hin|Hnin].
    + rewrite decide_True by (by right).
      rewrite <- Permutation_middle. by rewrite IH.
    + rewrite decide_False; [done|].
      intros [?|?]%elem_of_cons; done.
Qed.

Lemma concat_by_key {A} (kf : A -> Z) (ws : list A) : forall ks,
  NoDup ks ->
  concat ((fun k => filter (fun w => kf w = k) ws) <$> ks) ≡ₚ
  filter (fun w => kf w ∈ ks) ws.
Proof.
  induction ks as [|k ks IH]; intros Hnd.
  - simpl. induction ws as [|w ws IHws]; [done|].
    rewrite filter_cons. rewrite decide_False; [done|]. apply not_elem_of_nil.
  - apply NoDup_cons in Hnd as [Hk Hnd]. simpl.
    rewrite (IH Hnd). by apply filter_by_key_split.
Qed.

Lemma filter_all {A} (P : A -> Prop) `{!forall a, Decision (P a)} (l : list A) :
  Forall P l -> filter P l = l.
Proof.
  induction 1 as [|a l Ha Hl IH]; [done|].
  by rewrite filter_cons, decide_True, IH.
Qed.

Lemma concat_lines_of y_tol h ws : concat (lines_of y_tol h ws) ≡ₚ ws.
Proof.
  unfold lines_of.
  transitivity (concat ((fun k => bucket_of y_tol h ws k) <$>
                        line_keys y_tol h ws)).
  { induction (line_keys y_tol h ws) as [|k ks IH]; [done|].
    simpl. by rewrite py_sorted_perm, IH. }
  unfold bucket_of. rewrite concat_by_key by apply line_keys_NoDup.
  rewrite filter_all; [done|].
  apply Forall_forall. intros w Hw. apply line_keys_elem. eauto.
Qed.

Lemma lines_of_lookup y_tol h ws i L :
  lines_of y_tol h ws !! i = Some L ->
  exists k, line_keys y_tol h ws !! i = Some k /\
            L = py_sorted SFltb (xf h) (bucket_of y_tol h ws k).
Proof.
  unfold lines_of. rewrite list_lookup_fmap.
  destruct (line_keys y_tol h ws !! i) as [k|]; [|done].
  intros [= <-]. eauto.
Qed.

Lemma elem_of_line y_tol h ws k w :
  w ∈ py_sorted SFltb (xf h) (bucket_of y_tol h ws k) <->
  w ∈ ws /\ keyf y_tol h w = k.
Proof.
  rewrite py_sorted_perm. unfold bucket_of.
  rewrite list_elem_of_filter. tauto.
Qed.

(** C2.  When [sort_file] returns, the words of its lines taken together are
    the words of the input, each as often as the input has it, and no word
    stands in two lines. *)
Theorem sort_file_complete ws y_tol h h1 lines :
  sort_file ws y_tol h = (h1, Ok lines) ->
  concat lines ≡ₚ ws /\
  (forall i j L1 L2 w,
     lines !! i = Some L1 -> lines !! j = Some L2 ->
     w ∈ L1 -> w ∈ L2 -> i = j).
Proof.
  intros Hrun. apply sort_file_ok in Hrun as (_ & _ & _ & ->). split.
  - apply concat_lines_of.
  - intros i j L1 L2 w Hi Hj H1 H2.
    apply lines_of_lookup in Hi as (k1 & Hk1 & ->).
    apply lines_of_lookup in Hj as (k2 & Hk2 & ->).
    apply elem_of_line in H1 as [_ E1]. apply elem_of_line in H2 as [_ E2].
    eapply NoDup_lookup; [apply line_keys_NoDup|exact Hk1|].
    rewrite Hk2. congruence.
Qed.

(** ** Order of the lines and of the words in a line *)

Lemma StronglySorted_lookup_lt (l : list Z) : forall i j a b,
  StronglySorted Z.lt l -> (i < j)%nat ->
  l !! i = Some a -> l !! j = Some b -> (a < b)%Z.
Proof.
  intros i j a b Hs. revert i j.
  induction Hs as [|x l Hs IH Hx]; intros i j Hij Hi Hj; [done|].
  destruct j as [|j]; [lia|]. simpl in Hj.
  destruct i as [|i]; simpl in Hi.
  - injection Hi as ->. rewrite Forall_forall in Hx. apply Hx.
    by eapply list_elem_of_lookup_2.
  - apply (IH i j); [lia|done|done].
Qed.

Lemma Sorted_lookup_next {A} (R : A -> A -> Prop) (l : list A) : forall i a b,
  Sorted R l -> l !! i = Some a -> l !! S i = Some b -> R a b.
Proof.
  intros i a b Hs. revert i.
  induction Hs as [|x l Hs IH Hx]; intros i Hi Hj; [done|].
  destruct i as [|i]; simpl in *.
  - injection Hi as ->. destruct Hx as [|y l Hxy]; [done|].
    simpl in Hj. by injection Hj as ->.
  - by apply (IH i).
Qed.

Lemma filter_ext_in {A} (P Q : A -> Prop) `{!forall a, Decision (P a)}
    `{!forall a, Decision (Q a)} (l : list A) :
  (forall a, a ∈ l -> P a <-> Q a) -> filter P l = filter Q l.
Proof.
  induction l as [|a l IH]; intros Hext; [done|].
  rewrite !filter_cons. rewrite IH by (intros b Hb; apply Hext; by right).
  assert (P a <-> Q a) as Ha by (apply Hext; left).
  destruct (decide (P a)), (decide (Q a)); tauto.
Qed.

Lemma key_of_keyf y_tol h w :
  is_ok (key_of y_tol h w) = true -> key_of y_tol h w = Ok (keyf y_tol h w).
Proof. unfold keyf. by destruct (key_of y_tol h w). Qed.

(** C3, amended.  When [sort_file] returns: the bucket keys of the lines
    increase strictly from one line to the next (all words of a line share
    one key); and in every line none of whose words has a NaN [x_avg], the
    [x_avg] of the words never decreases, and the words with equal [x_avg]
    stand in the order the input has them.  A NaN on one line takes nothing
    from the other lines. *)
Theorem sort_file_ordering ws y_tol h h1 lines :
  sort_file ws y_tol h = (h1, Ok lines) ->
  (forall i j L1 L2 w1 w2,
     (i < j)%nat -> lines !! i = Some L1 -> lines !! j = Some L2 ->
     w1 ∈ L1 -> w2 ∈ L2 ->
     exists k1 k2, key_of y_tol h1 w1 = Ok k1 /\ key_of y_tol h1 w2 = Ok k2 /\
                   (k1 < k2)%Z) /\
  (forall L w1 w2, L ∈ lines -> w1 ∈ L -> w2 ∈ L ->
     key_of y_tol h1 w1 = key_of y_tol h1 w2) /\
  Forall (fun w => x_avg_of h1 w = Some (xf h1 w)) ws /\
  (forall L, L ∈ lines ->
     Forall (fun w => is_nan (xf h1 w) = false) L ->
     (forall i a b, L !! i = Some a -> L !! S i = Some b ->
        SFleb (xf h1 a) (xf h1 b) = true) /\
     (forall c,
        filter (fun w => SFeqb (xf h1 w) c = true) L =
        filter (fun w => w ∈ L /\ SFeqb (xf h1 w) c = true) ws)).
Proof.
  intros Hrun. apply sort_file_ok in Hrun as (_ & Hks & Hav & ->).
  rewrite Forall_forall in Hks.
  split; [|split; [|split]].
  - intros i j L1 L2 w1 w2 Hij Hi Hj H1 H2.
    apply lines_of_lookup in Hi as (k1 & Hk1 & ->).
    apply lines_of_lookup in Hj as (k2 & Hk2 & ->).
    apply elem_of_line in H1 as [Hw1 E1]. apply elem_of_line in H2 as [Hw2 E2].
    exists k1, k2.
    rewrite (key_of_keyf _ _ _ (Hks _ Hw1)), (key_of_keyf _ _ _ (Hks _ Hw2)).
    rewrite E1, E2. repeat split.
    eapply StronglySorted_lookup_lt; [apply line_keys_sorted|..]; done.
  - intros L w1 w2 HL H1 H2.
    apply list_elem_of_lookup in HL as [i Hi].
    apply lines_of_lookup in Hi as (k & Hk & ->).
    apply elem_of_line in H1 as [Hw1 E1]. apply elem_of_line in H2 as [Hw2 E2].
    rewrite (key_of_keyf _ _ _ (Hks _ Hw1)), (key_of_keyf _ _ _ (Hks _ Hw2)).
    by rewrite E1, E2.
  - eapply Forall_impl; [exact Hav|]. intros w [_ [x Hx]].
    by rewrite (xf_some _ _ _ Hx).
  - intros L HL Hnan. rewrite Forall_forall in Hnan.
    apply list_elem_of_lookup in HL as [n Hn].
    apply lines_of_lookup in Hn as (k & Hk & ->). split.
    + intros i a b Ha Hb.
      assert (ordered SFltb (xf h1) a b) as Hab.
      { eapply Sorted_lookup_next; [|exact Ha|exact Hb].
        apply py_sorted_ordered, SFltb_asym. }
      apply SFltb_false_leb; [| |exact Hab]; apply Hnan;
        by eapply list_elem_of_lookup_2.
    + intros c. rewrite py_sorted_filter
        by (intros a b Ha Hb; by apply (SFltb_ties _ _ c)).
      unfold bucket_of at 1. rewrite list_filter_filter.
      apply filter_ext_in. intros w Hw. rewrite elem_of_line. tauto.
Qed.

(** ** Running [sort_file] again *)

(** C8.  [sort_file] is a function of the words, the tolerance and the store
    the word dicts live in, and it is idempotent: a second call on the same
    words, started in the store the first call left, returns what the first
    call returned (the same lines in the same order, or the same exception)
    and leaves the store as it found it. *)
Theorem sort_file_idempotent ws y_tol h :
  sort_file ws y_tol (sort_file ws y_tol h).1 = sort_file ws y_tol h.
Proof.
  pose proof (sort_file_store ws y_tol h) as Hst.
  destruct (for_each annotate ws h) as [h1 r1] eqn:E1. simpl in Hst.
  pose proof (annotate_all_idem _ _ _ _ E1) as E2.
  rewrite Hst. rewrite (sort_file_unfold ws y_tol h1), E2.
  rewrite (sort_file_unfold ws y_tol h), E1. done.
Qed.

(** ** What [sort_file] changes in the store *)

(** C9.  Whether [sort_file] returns or raises, every word dict keeps its
    [bbox] (with the four coordinates in it) and its [text]; no key other than
    [y_avg] and [x_avg] changes in any dict; and a dict that is not in the
    input list is not touched at all. *)
Theorem sort_file_frame ws y_tol h :
  (forall l,
     ((sort_file ws y_tol h).1 !!! l) !! "bbox" = (h !!! l) !! "bbox" /\
     ((sort_file ws y_tol h).1 !!! l) !! "text" = (h !!! l) !! "text") /\
  (forall l k, k <> "y_avg" -> k <> "x_avg" ->
               ((sort_file ws y_tol h).1 !!! l) !! k = (h !!! l) !! k) /\
  (forall l, l ∉ ws -> (sort_file ws y_tol h).1 !! l = h !! l).
Proof.
  rewrite sort_file_store.
  destruct (for_each annotate ws h) as [h1 r1] eqn:E1. simpl.
  split; [|split].
  - intros l. split; by eapply annotate_all_frame.
  - intros l k Hy Hx. by eapply annotate_all_frame.
  - intros l Hl. by eapply annotate_all_other.
Qed.

(** ** Malformed word boxes *)


Lemma sort_file_raise ws y_tol h h1 e :
  for_each annotate ws h = (h1, Raise e) ->
  sort_file ws y_tol h = (h1, Raise e).
Proof. intros E. by rewrite sort_file_unfold, E. Qed.

Lemma missing_field_ext d1 d2 :
  d1 !! "bbox" = d2 !! "bbox" -> missing_field d1 = missing_field d2.
Proof. unfold missing_field. by intros ->. Qed.

(** A dict with a field missing makes [annotate] raise. *)
Lemma missing_raises d :
  is_Some (missing_field d) -> exists e, (annotated d).2 = Raise e.
Proof.
  unfold missing_field. unfold_avg.
  destruct (d !! "bbox") as [[f|s|b]|]; simpl; eauto; try by intros [? ?].
  unfold dict_get.
  destruct (b !! "y_min") as [y0|]; simpl; eauto.
  destruct (b !! "y_max") as [y1|]; simpl; eauto.
  destruct (py_add y0 y1) as [sy|]; simpl; eauto.
  destruct (py_truediv sy (VFloat two)) as [y|]; simpl; eauto.
  destruct (b !! "x_min") as [x0|]; simpl; eauto.
  destruct (b !! "x_max") as [x1|]; simpl; eauto.
  by intros [? ?].
Qed.


Lemma well_formed_annotated d :
  well_formed d -> exists d', annotated d = (Some d', Ok tt).
Proof.
  intros (b & y0 & y1 & x0 & x1 & Hb & Hy0 & Hy1 & Hx0 & Hx1).
  unfold_avg. rewrite Hb. simpl. unfold dict_get.
  rewrite Hy0, Hy1, Hx0, Hx1. simpl. eauto.
Qed.

Lemma well_formed_ext d1 d2 :
  d1 !! "bbox" = d2 !! "bbox" -> well_formed d1 -> well_formed d2.
Proof. unfold well_formed. by intros ->. Qed.

Lemma annotate_all_well_formed ws : forall h,
  Forall (fun w => well_formed (h !!! w)) ws ->
  exists h1, for_each annotate ws h = (h1, Ok tt).
Proof.
  induction ws as [|w ws IH]; intros h Hwf; [by exists h|].
  apply Forall_cons in Hwf as [Hw Hws].
  rewrite for_each_cons. destruct (annotate w h) as [h' r] eqn:E.
  pose proof E as E'. rewrite annotate_eq in E'.
  apply well_formed_annotated in Hw as [d' Hd]. rewrite Hd in E'.
  injection E' as _ <-. apply IH.
  eapply Forall_impl; [exact Hws|]. intros g. simpl.
  apply well_formed_ext. symmetry. by eapply annotate_frame.
Qed.

Lemma annotate_all_missing ws : forall h w,
  w ∈ ws -> is_Some (missing_field (h !!! w)) ->
  exists e, (for_each annotate ws h).2 = Raise e.
Proof.
  induction ws as [|w0 ws IH]; intros h w Hin Hmiss.
  { by apply elem_of_nil in Hin. }
  rewrite for_each_cons. destruct (annotate w0 h) as [h' [[]|e]] eqn:E;
    [|by exists e].
  apply elem_of_cons in Hin as [->|Hin].
  - apply missing_raises in Hmiss as [e He].
    rewrite annotate_eq in E. injection E as _ E. congruence.
  - apply (IH h' w Hin).
    rewrite (missing_field_ext _ (h !!! w)); [done|].
    by eapply annotate_frame.
Qed.


(** ** Substrings and [split] *)

Lemma starts_with_app p s : starts_with p s = true <-> exists r, s = p ++ r.
Proof.
  revert s. induction p as [|a p IH]; intros s; simpl.
  { split; [eauto|done]. }
  destruct s as [|b s]; simpl.
  { split; [done|]. by intros [r ?]. }
  rewrite andb_true_iff, N.eqb_eq, IH. split.
  - intros [-> [r ->]]. eauto.
  - intros [r [= -> ->]]. eauto.
Qed.

Lemma starts_with_nil s : starts_with [] s = true.
Proof. done. Qed.

Lemma partition_first_unfold sep s :
  partition_first sep s =
  if starts_with sep s then Some ([], drop (length sep) s)
  else
    match s with
    | [] => None
    | c :: s' =>
        match partition_first sep s' with
        | Some (before, after) => Some (c :: before, after)
        | None => None
        end
    end.
Proof. by destruct s. Qed.

(** [partition_first] cuts the string around an occurrence of [sep]. *)
Lemma partition_first_app sep s before after :
  partition_first sep s = Some (before, after) -> s = before ++ sep ++ after.
Proof.
  revert before. induction s as [|c s IH]; intros before;
    rewrite partition_first_unfold.
  - destruct (starts_with sep []) eqn:E; [|done]. intros [= <- <-].
    apply starts_with_app in E as [r E]. simpl.
    rewrite E at 1. by rewrite E, drop_app_length.
  - destruct (starts_with sep (c :: s)) eqn:E.
    + intros [= <- <-]. apply starts_with_app in E as [r E]. simpl.
      rewrite E at 1. by rewrite E, drop_app_length.
    + destruct (partition_first sep s) as [[b a]|]; [|done].
      intros [= <- <-]. simpl. f_equal. by apply IH.
Qed.

Lemma py_in_partition sep s :
  py_in sep s = true <-> is_Some (partition_first sep s).
Proof.
  induction s as [|c s IH]; rewrite partition_first_unfold; simpl.
  - destruct (starts_with sep []); simpl; [by eauto|].
    split; [done|]. by intros [? ?].
  - destruct (starts_with sep (c :: s)); simpl; [by eauto|].
    rewrite IH. destruct (partition_first sep s) as [[b a]|]; [by eauto|].
    split; by intros [? ?].
Qed.

Lemma partition_first_shorter sep s before after :
  sep <> [] -> partition_first sep s = Some (before, after) ->
  (length after < length s)%nat.
Proof.
  intros Hsep Hp. apply partition_first_app in Hp as ->.
  rewrite !length_app. destruct sep; [done|]. simpl. lia.
Qed.

Lemma partition_first_nil sep : sep <> [] -> partition_first sep [] = None.
Proof. by destruct sep. Qed.

(** More fuel than the length of the string changes nothing. *)
Lemma split_parts_fuel sep : sep <> [] -> forall n m s,
  (length s <= n)%nat -> (length s <= m)%nat ->
  split_parts n sep s = split_parts m sep s.
Proof.
  intros Hsep. induction n as [|n IH]; intros m s Hn Hm.
  - destruct s; [|simpl in Hn; lia].
    destruct m; cbn [split_parts]; [done|]. by rewrite partition_first_nil.
  - destruct m as [|m].
    + destruct s; [|simpl in Hm; lia].
      cbn [split_parts]. by rewrite partition_first_nil.
    + cbn [split_parts].
      destruct (partition_first sep s) as [[b a]|] eqn:E; [|done].
      f_equal. pose proof (partition_first_shorter _ _ _ _ Hsep E).
      apply IH; lia.
Qed.

Lemma split_parts_unfold sep s :
  sep <> [] ->
  split_parts (length s) sep s =
  match partition_first sep s with
  | None => [s]
  | Some (before, after) => before :: split_parts (length after) sep after
  end.
Proof.
  intros Hsep. destruct s as [|c s].
  - cbn [length split_parts]. by rewrite partition_first_nil.
  - cbn [length split_parts].
    destruct (partition_first sep (c :: s)) as [[b a]|] eqn:E; [|done].
    f_equal. pose proof (partition_first_shorter _ _ _ _ Hsep E) as Hlen.
    simpl in Hlen. apply split_parts_fuel; [done|lia|lia].
Qed.

Lemma segment_prefix sep s : exists t, s = segment sep s ++ t.
Proof.
  unfold segment. destruct (partition_first sep s) as [[b a]|] eqn:E.
  - apply partition_first_app in E. eauto.
  - exists []. by rewrite app_nil_r.
Qed.

(** [split] on a string in which [sep] occurs: the text before the first
    occurrence, then the text up to the next one. *)
Lemma py_split_occurs sep s before after :
  sep <> [] -> partition_first sep s = Some (before, after) ->
  exists tl, py_split sep s = Ok (before :: segment sep after :: tl).
Proof.
  intros Hsep E. unfold py_split. destruct sep as [|c sep]; [done|].
  rewrite split_parts_unfold, E by done.
  rewrite split_parts_unfold by done. unfold segment.
  destruct (partition_first (c :: sep) after) as [[b a]|]; eauto.
Qed.

(** When [sep] occurs once, [split] gives the two parts around it. *)
Lemma py_split_once sep s before after :
  sep <> [] -> partition_first sep s = Some (before, after) ->
  py_in sep after = false ->
  py_split sep s = Ok [before; after].
Proof.
  intros Hsep E Hno. unfold py_split. destruct sep as [|c sep]; [done|].
  rewrite split_parts_unfold, E by done.
  rewrite split_parts_unfold by done.
  destruct (partition_first (c :: sep) after) as [[b a]|] eqn:E2; [|done].
  assert (py_in (c :: sep) after = true) by (apply py_in_partition; eauto).
  congruence.
Qed.

(** ** Words and capitals *)

Section ExtractorFacts.
Context (isspace isupper : char -> bool).

Lemma scan_words_words s :
  Forall (fun c => isspace c = false) (scan_words isspace s).1 /\
  Forall (is_word isspace) (scan_words isspace s).2.
Proof.
  induction s as [|c s [IH1 IH2]]; simpl; [by split|].
  destruct (scan_words isspace s) as [w ws]. simpl in *.
  destruct (isspace c) eqn:E; simpl.
  - split; [done|]. destruct w; simpl; [done|].
    constructor; [|done]. by split.
  - split; [|done]. by constructor.
Qed.

Lemma split_ws_words s : Forall (is_word isspace) (split_ws isspace s).
Proof.
  unfold split_ws. destruct (scan_words_words s) as [H1 H2].
  destruct (scan_words isspace s) as [w ws]. simpl in *.
  destruct w; simpl; [done|]. constructor; [|done]. by split.
Qed.

Lemma scan_words_rstrip s :
  scan_words isspace (rstrip isspace s) = scan_words isspace s.
Proof.
  induction s as [|c s IH]; [done|].
  assert (forall t, scan_words isspace t = scan_words isspace s ->
            scan_words isspace (c :: t) = scan_words isspace (c :: s)) as Hc
    by (intros t Ht; simpl; by rewrite Ht).
  simpl rstrip. destruct (rstrip isspace s) as [|r rs]; [|by apply Hc].
  destruct (isspace c) eqn:E; [|by apply Hc].
  simpl. rewrite <- IH. simpl. by rewrite E.
Qed.

Lemma split_ws_lstrip s :
  split_ws isspace (lstrip isspace s) = split_ws isspace s.
Proof.
  unfold split_ws. induction s as [|c s IH]; [done|]. simpl.
  destruct (isspace c) eqn:E; [|by simpl; rewrite E].
  rewrite IH. destruct (scan_words isspace s) as [w ws]. simpl. by destruct w.
Qed.

Lemma split_ws_strip s :
  split_ws isspace (strip isspace s) = split_ws isspace s.
Proof.
  unfold strip. rewrite <- (split_ws_lstrip s).
  unfold split_ws. by rewrite scan_words_rstrip.
Qed.

Lemma scan_words_blank s :
  Forall (fun c => isspace c = true) s -> scan_words isspace s = ([], []).
Proof.
  induction 1 as [|c s Hc Hs IH]; [done|]. simpl. by rewrite IH, Hc.
Qed.

Lemma candidates_blank s :
  Forall (fun c => isspace c = true) s -> candidates isspace isupper s = [].
Proof.
  intros Hs. unfold candidates. rewrite split_ws_strip.
  unfold split_ws. by rewrite scan_words_blank.
Qed.

Lemma cap_count_cons_word w ws :
  cap_count isupper (cons_word w ws) =
  ((if capitalized isupper w then 1 else 0) + cap_count isupper ws)%nat.
Proof.
  unfold cap_count. destruct w as [|c w]; simpl; [done|].
  rewrite filter_cons. simpl.
  destruct (decide (isupper c = true)) as [->|Hc]; [done|].
  by destruct (isupper c).
Qed.

Lemma cap_starts_scan s :
  cap_count isupper
    (cons_word (scan_words isspace s).1 (scan_words isspace s).2)
  = cap_starts isspace isupper true s /\
  cap_count isupper (scan_words isspace s).2
  = cap_starts isspace isupper false s.
Proof.
  induction s as [|c s [IH1 IH2]]; [done|]. simpl.
  destruct (scan_words isspace s) as [w ws]. simpl in *.
  destruct (isspace c) eqn:E; simpl.
  - by rewrite IH1.
  - change ((c :: w) :: ws) with (cons_word (c :: w) ws).
    rewrite cap_count_cons_word. simpl. rewrite IH2.
    split; [|done]. by destruct (isupper c).
Qed.

Lemma cap_count_split_ws s :
  cap_count isupper (split_ws isspace s) = cap_starts isspace isupper true s.
Proof.
  unfold split_ws. destruct (cap_starts_scan s) as [H _].
  by destruct (scan_words isspace s).
Qed.

Lemma cap_starts_app b p q :
  (cap_starts isspace isupper b p <= cap_starts isspace isupper b (p ++ q))%nat.
Proof.
  revert b. induction p as [|c p IH]; intros b; simpl; [lia|].
  specialize (IH (isspace c)). lia.
Qed.

(** A piece of text has no more capitalised words than a text it opens. *)
Lemma candidates_prefix p q :
  (length (candidates isspace isupper p) <=
   length (candidates isspace isupper (p ++ q)))%nat.
Proof.
  unfold candidates. rewrite !split_ws_strip.
  change (cap_count isupper (split_ws isspace p) <=
          cap_count isupper (split_ws isspace (p ++ q)))%nat.
  rewrite !cap_count_split_ws. apply cap_starts_app.
Qed.

Lemma candidates_words s :
  Forall (fun w => is_word isspace w /\ capitalized isupper w = true)
         (candidates isspace isupper s).
Proof.
  unfold candidates. apply Forall_forall. intros w Hw.
  apply list_elem_of_filter in Hw as [Hc Hw]. split; [|done].
  pose proof (split_ws_words (strip isspace s)) as Hall.
  rewrite Forall_forall in Hall. by apply Hall.
Qed.
End ExtractorFacts.

(** ** The scan over markers and lines *)

Section ScanFacts.
Context (isspace isupper : char -> bool).

Lemma scan_markers_cons line marker rest :
  marker <> [] ->
  scan_markers isspace isupper line (marker :: rest) =
  match partition_first marker line with
  | Some (_, after) =>
      let names := candidates isspace isupper (segment marker after) in
      if (2 <=? length names)%nat
      then Ok (Some (names !!! 0%nat, names !!! 1%nat))
      else scan_markers isspace isupper line rest
  | None => scan_markers isspace isupper line rest
  end.
Proof.
  intros Hm. cbn [scan_markers].
  destruct (partition_first marker line) as [[b a]|] eqn:E.
  - assert (py_in marker line = true) as ->
      by (apply py_in_partition; eauto).
    destruct (py_split_occurs _ _ _ _ Hm E) as [tl ->]. done.
  - assert (py_in marker line = false) as ->; [|done].
    destruct (py_in marker line) eqn:Hin; [|done].
    apply py_in_partition in Hin as [? ?]. congruence.
Qed.

(** An empty marker is found in every line, and [split] refuses it. *)
Lemma scan_markers_empty_marker line rest :
  scan_markers isspace isupper line ([] :: rest) = Raise ValueError.
Proof. cbn [scan_markers]. by destruct line. Qed.

Lemma scan_markers_app line ms1 ms2 :
  scan_markers isspace isupper line (ms1 ++ ms2) =
  match scan_markers isspace isupper line ms1 with
  | Ok None => scan_markers isspace isupper line ms2
  | r => r
  end.
Proof.
  induction ms1 as [|m ms1 IH]; [done|].
  rewrite <- app_comm_cons. destruct m as [|c m].
  { by rewrite !scan_markers_empty_marker. }
  rewrite !scan_markers_cons by done.
  destruct (partition_first (c :: m) line) as [[b a]|]; [|done].
  cbv zeta. by case_len.
Qed.

Lemma segment_candidates marker after :
  (length (candidates isspace isupper (segment marker after)) <=
   length (candidates isspace isupper after))%nat.
Proof.
  destruct (segment_prefix marker after) as [t Ht].
  rewrite Ht at 2. apply candidates_prefix.
Qed.

Lemma segment_blank marker after :
  Forall (fun c => isspace c = true) after ->
  Forall (fun c => isspace c = true) (segment marker after).
Proof.
  destruct (segment_prefix marker after) as [t Ht].
  rewrite Ht at 1. by intros [? _]%Forall_app.
Qed.

Lemma pair_of_candidates (names : list pystr) (P : pystr -> Prop) :
  Forall P names -> (2 <=? length names)%nat = true ->
  P (names !!! 0%nat) /\ P (names !!! 1%nat).
Proof.
  intros Hall Hlen. destruct names as [|a [|b tl]]; try done.
  apply Forall_cons in Hall as [Ha Hall].
  apply Forall_cons in Hall as [Hb _]. done.
Qed.

(** What the inner loop hands back is a pair of capitalised words. *)
Lemma scan_markers_pair line markers first last :
  scan_markers isspace isupper line markers = Ok (Some (first, last)) ->
  (is_word isspace first /\ capitalized isupper first = true) /\
  (is_word isspace last /\ capitalized isupper last = true).
Proof.
  induction markers as [|m ms IH]; [done|].
  destruct m as [|c m]; [by rewrite scan_markers_empty_marker|].
  rewrite scan_markers_cons by done.
  destruct (partition_first (c :: m) line) as [[b a]|]; [|done].
  cbv zeta. case_len; [|done].
  intros [= <- <-].
  apply (pair_of_candidates _
           (fun w => is_word isspace w /\ capitalized isupper w = true));
    [apply candidates_words|done].
Qed.

Lemma scan_markers_none line markers :
  Forall (fun m => m <> []) markers ->
  no_pair_follows isspace isupper [line] markers ->
  scan_markers isspace isupper line markers = Ok None.
Proof.
  induction 1 as [|m ms Hm Hms IH]; intros Hno; [done|].
  rewrite scan_markers_cons by done.
  assert (scan_markers isspace isupper line ms = Ok None) as ->.
  { apply IH. intros l m' b a Hl Hm'. apply Hno; [done|by right]. }
  destruct (partition_first m line) as [[b a]|] eqn:E; [|done]. cbv zeta.
  assert (length (candidates isspace isupper a) < 2)%nat as Hlt.
  { eapply (Hno line m); [left|left|exact E]. }
  pose proof (segment_candidates m a).
  case_len; [|done].
  apply Nat.leb_le in Hlen. lia.
Qed.
End ScanFacts.

(** ** Properties of [extract_patient_name] *)

Section ExtractorTheorems.
Context (isspace isupper : char -> bool).

Lemma extract_cons line lines markers :
  extract_patient_name isspace isupper (line :: lines) markers =
  match scan_markers isspace isupper line markers with
  | Ok (Some (first, last)) => Ok (Some first, Some last)
  | Ok None => extract_patient_name isspace isupper lines markers
  | Raise e => Raise e
  end.
Proof.
  cbn [extract_patient_name]. unfold mbind, result_bind.
  by destruct (scan_markers isspace isupper line markers) as [[[]|]|].
Qed.

(** C6, amended.  When no marker is followed by two capitalised words on
    any line, and either there is no line or no marker is the empty string,
    the extractor returns [(None, None)] and raises nothing. *)
Theorem no_name_found lines markers :
  lines = [] \/ Forall (fun m => m <> []) markers ->
  no_pair_follows isspace isupper lines markers ->
  extract_patient_name isspace isupper lines markers = Ok (None, None).
Proof.
  intros [->|Hm]; [done|]. induction lines as [|line lines IH]; [done|].
  intros Hno. rewrite extract_cons.
  rewrite scan_markers_none; [|done|].
  - apply IH. intros l m b a Hl. apply Hno. by right.
  - intros l m b a Hl. apply Hno.
    apply list_elem_of_singleton in Hl as ->. left.
Qed.

(** C7, amended.  When the first occurrence of a marker that is not the
    empty string ends the line or is followed by blanks only, the marker is
    no match on that line: the scan goes on with the markers after it, and
    when none of them matches either, with the lines after it. *)
Theorem marker_without_name line marker rest before after :
  marker <> [] ->
  partition_first marker line = Some (before, after) ->
  Forall (fun c => isspace c = true) after ->
  scan_markers isspace isupper line (marker :: rest) =
    scan_markers isspace isupper line rest /\
  (forall lines seen,
     scan_markers isspace isupper line seen = Ok None ->
     extract_patient_name isspace isupper (line :: lines)
       (seen ++ marker :: rest) =
     match scan_markers isspace isupper line rest with
     | Ok (Some (first, last)) => Ok (Some first, Some last)
     | Ok None =>
         extract_patient_name isspace isupper lines (seen ++ marker :: rest)
     | Raise e => Raise e
     end).
Proof.
  intros Hm E Hblank.
  assert (scan_markers isspace isupper line (marker :: rest) =
          scan_markers isspace isupper line rest) as Hskip.
  { rewrite scan_markers_cons, E by done. cbv zeta.
    rewrite candidates_blank by (by apply segment_blank). done. }
  split; [done|]. intros lines seen Hseen.
  by rewrite extract_cons, scan_markers_app, Hseen, Hskip.
Qed.

(** C10.  What the extractor returns is [(None, None)] or a pair of two
    capitalised words, each not empty and free of blanks; never one name
    without the other. *)
Theorem name_all_or_nothing lines markers first last :
  extract_patient_name isspace isupper lines markers = Ok (first, last) ->
  (first = None /\ last = None) \/
  (exists f l,
     first = Some f /\ last = Some l /\
     is_word isspace f /\ capitalized isupper f = true /\
     is_word isspace l /\ capitalized isupper l = true).
Proof.
  induction lines as [|line lines IH].
  { intros [= <- <-]. by left. }
  rewrite extract_cons.
  destruct (scan_markers isspace isupper line markers) as [[[f l]|]|] eqn:E;
    [|done|done].
  intros [= <- <-]. right. exists f, l.
  apply scan_markers_pair in E as [[? ?] [? ?]]. done.
Qed.

(** The extractor raises only when a marker is the empty string. *)
Lemma extract_total lines markers :
  Forall (fun m => m <> []) markers ->
  exists r, extract_patient_name isspace isupper lines markers = Ok r.
Proof.
  intros Hm.
  assert (forall line, exists o,
            scan_markers isspace isupper line markers = Ok o) as Hscan.
  { intros line. induction Hm as [|m ms Hne Hms IH]; [by eexists|].
    rewrite scan_markers_cons by done.
    destruct (partition_first m line) as [[b a]|]; [|done].
    cbv zeta. case_len; [by eexists|done]. }
  induction lines as [|line lines IH]; [by eexists|].
  rewrite extract_cons. destruct (Hscan line) as [[[f l]|] ->]; [|done].
  by eexists.
Qed.

(** When no marker occurs twice in a line, the code does what the
    specification words. *)
Lemma scan_markers_specified line markers :
  Forall (fun m => m <> []) markers ->
  (forall marker before after,
     marker ∈ markers -> partition_first marker line = Some (before, after) ->
     py_in marker after = false) ->
  scan_markers isspace isupper line markers =
  Ok (specified_scan_markers isspace isupper line markers).
Proof.
  induction 1 as [|m ms Hm Hms IH]; intros Honce; [done|].
  rewrite scan_markers_cons by done. cbn [specified_scan_markers].
  rewrite IH by (intros m' b a Hin; apply Honce; by right).
  destruct (partition_first m line) as [[b a]|] eqn:E; [|done].
  assert (segment m a = a) as ->.
  { unfold segment.
    destruct (partition_first m a) as [[b' a']|] eqn:E2; [|done].
    assert (py_in m a = true) by (apply py_in_partition; eauto).
    rewrite (Honce m b a) in H; [done|left|done]. }
  cbv zeta. by case_len.
Qed.
End ExtractorTheorems.

Section ExtractorRefinement.
Context (isspace isupper : char -> bool).

(** On lines in which no marker occurs a second time after its first
    occurrence, and with markers that are not empty, [extract_patient_name]
    returns what the specification describes. *)
Theorem extract_as_specified lines markers :
  Forall (fun m => m <> []) markers ->
  (forall line marker before after,
     line ∈ lines -> marker ∈ markers ->
     partition_first marker line = Some (before, after) ->
     py_in marker after = false) ->
  extract_patient_name isspace isupper lines markers =
  Ok (specified_extract isspace isupper lines markers).
Proof.
  intros Hm. induction lines as [|line lines IH]; intros Honce; [done|].
  rewrite extract_cons. cbn [specified_extract].
  rewrite scan_markers_specified;
    [|done|intros m b a; apply Honce; left].
  destruct (specified_scan_markers isspace isupper line markers)
    as [[f l]|]; [done|].
  apply IH. intros l m b a Hl. apply Honce. by right.
Qed.

(** Marker priority: a marker that is followed by two capitalised words,
    and does not occur again after its first occurrence, wins over every
    marker behind it in the list, wherever those stand in the line. *)
Theorem first_marker_wins line lines marker rest before after :
  marker <> [] ->
  partition_first marker line = Some (before, after) ->
  py_in marker after = false ->
  (2 <= length (candidates isspace isupper after))%nat ->
  extract_patient_name isspace isupper (line :: lines) (marker :: rest) =
  Ok (Some (candidates isspace isupper after !!! 0%nat),
      Some (candidates isspace isupper after !!! 1%nat)).
Proof.
  intros Hm E Honce Hlen. rewrite extract_cons.
  rewrite scan_markers_cons, E by done.
  assert (segment marker after = after) as ->.
  { unfold segment.
    destruct (partition_first marker after) as [[b' a']|] eqn:E2; [|done].
    assert (py_in marker after = true) by (apply py_in_partition; eauto).
    congruence. }
  cbv zeta. apply Nat.leb_le in Hlen. by rewrite Hlen.
Qed.
End ExtractorRefinement.

(** ** The extractor on the example inputs *)

(** C1.  On a line in which the marker occurs twice, [split] hands back the
    text between the two occurrences as [parts[1]], not the rest of the line:
    the code finds no name where the specification finds one. *)
Theorem repeated_marker_is_cut :
  extract_patient_name unicode_isspace latin1_isupper
    [line_repeated] default_markers = Ok (None, None) /\
  specified_extract unicode_isspace latin1_isupper
    [line_repeated] default_markers =
  (Some (of_string "Jean"), Some (of_string "Monsieur")).
Proof. split; vm_compute; reflexivity. Qed.

(** C5.  The same cut makes the second marker of the list win on a line in
    which the first marker occurs twice, although two capitalised words
    follow the first marker. *)
Theorem repeated_marker_loses_priority :
  extract_patient_name unicode_isspace latin1_isupper
    [line_both] default_markers =
  Ok (Some (of_string "Anne"), Some (of_string "Martin")) /\
  specified_extract unicode_isspace latin1_isupper
    [line_both] default_markers =
  (Some (of_string "Jean"), Some (of_string "Monsieur")).
Proof. split; vm_compute; reflexivity. Qed.

(** C6, as stated, fails: with the empty string as a marker nothing follows
    the marker that counts as a name, and the extractor raises. *)
Lemma empty_marker_raises :
  no_pair_follows unicode_isspace latin1_isupper [of_string "x"] [[]] /\
  extract_patient_name unicode_isspace latin1_isupper [of_string "x"] [[]] =
  Raise ValueError.
Proof.
  split; [|vm_compute; reflexivity].
  intros line marker before after Hl Hm E. in_list Hl. in_list Hm.
  vm_compute in E. injection E as <- <-. vm_compute. lia.
Qed.

(** C7, as stated, fails: the empty marker stands at the very end of the
    empty line, and the scan does not go on to the next marker. *)
Lemma empty_marker_stops_scan :
  partition_first [] [] = Some ([], []) /\
  scan_markers unicode_isspace latin1_isupper [] [[]; of_string "Madame"] =
  Raise ValueError /\
  scan_markers unicode_isspace latin1_isupper [] [of_string "Madame"] =
  Ok None.
Proof. repeat split; vm_compute; reflexivity. Qed.

Lemma no_name_found_witness :
  extract_patient_name unicode_isspace latin1_isupper
    [of_string "Monsieur jean dupont"] default_markers = Ok (None, None).
Proof.
  apply (no_name_found unicode_isspace latin1_isupper
           [of_string "Monsieur jean dupont"] default_markers).
  - right. repeat constructor; done.
  - intros line marker before after Hl Hm E. in_list Hl.
    unfold default_markers in Hm. in_list Hm;
      vm_compute in E; [|discriminate].
    injection E as <- <-. vm_compute. lia.
Defined.

Lemma marker_without_name_witness :
  scan_markers unicode_isspace latin1_isupper line_title_last
    default_markers =
  scan_markers unicode_isspace latin1_isupper line_title_last
    [of_string "Madame"].
Proof.
  apply (marker_without_name unicode_isspace latin1_isupper
           line_title_last (of_string "Monsieur") [of_string "Madame"]
           (of_string "Cher ") (of_string " ")).
  - done.
  - vm_compute. reflexivity.
  - repeat constructor.
Defined.

Lemma name_all_or_nothing_witness :
  (Some (of_string "Jean") = None /\ Some (of_string "Dupont") = None) \/
  (exists f l,
     Some (of_string "Jean") = Some f /\ Some (of_string "Dupont") = Some l /\
     is_word unicode_isspace f /\ capitalized latin1_isupper f = true /\
     is_word unicode_isspace l /\ capitalized latin1_isupper l = true).
Proof.
  apply (name_all_or_nothing unicode_isspace latin1_isupper
           lines_example default_markers).
  vm_compute. reflexivity.
Defined.

(** ** [sort_file] on the example inputs *)

Lemma example_run :
  sort_file example_words y_tol_default example_store =
  ((sort_file example_words y_tol_default example_store).1, Ok example_lines).
Proof. vm_compute. reflexivity. Qed.

Lemma sort_file_complete_witness : concat example_lines ≡ₚ example_words.
Proof.
  pose proof (sort_file_complete example_words y_tol_default example_store
                (sort_file example_words y_tol_default example_store).1
                example_lines) as H.
  apply H. vm_compute. reflexivity.
Defined.

(** The line of the words 2 and 1 is in order and keeps the input order of
    equal abscissas, although the word 3, on the next line, has a NaN
    abscissa. *)
Lemma sort_file_ordering_witness :
  (sort_file [1; 2; 3]%positive y_tol_default nan_elsewhere_store).2 =
    Ok [[2; 1]; [3]]%positive /\
  is_nan (xf (sort_file [1; 2; 3]%positive y_tol_default
                nan_elsewhere_store).1 3%positive) = true /\
  SFleb (xf (sort_file [1; 2; 3]%positive y_tol_default
               nan_elsewhere_store).1 2%positive)
        (xf (sort_file [1; 2; 3]%positive y_tol_default
               nan_elsewhere_store).1 1%positive) = true /\
  filter (fun w => SFeqb (xf (sort_file [1; 2; 3]%positive y_tol_default
                                nan_elsewhere_store).1 w) f_0_15 = true)
         [2; 1]%positive =
  filter (fun w => w ∈ [2; 1]%positive /\
                   SFeqb (xf (sort_file [1; 2; 3]%positive y_tol_default
                                nan_elsewhere_store).1 w) f_0_15 = true)
         [1; 2; 3]%positive.
Proof.
  assert (sort_file [1; 2; 3]%positive y_tol_default nan_elsewhere_store =
          ((sort_file [1; 2; 3]%positive y_tol_default
              nan_elsewhere_store).1, Ok [[2; 1]; [3]]%positive)) as Hrun
    by (vm_compute; reflexivity).
  split; [by rewrite Hrun|]. split; [vm_compute; reflexivity|].
  destruct (sort_file_ordering _ _ _ _ _ Hrun) as (_ & _ & _ & Hline).
  destruct (Hline [2; 1]%positive) as [Hle Hstable].
  - left.
  - repeat constructor; vm_compute; reflexivity.
  - split; [|apply Hstable]. by apply (Hle 0%nat).
Defined.

(** C3, as stated, fails: a NaN [x_avg] is not [<=] the one after it. *)
Lemma nan_breaks_order :
  (sort_file [1; 2]%positive y_tol_default nan_store).2 =
    Ok [[1; 2]%positive] /\
  xf (sort_file [1; 2]%positive y_tol_default nan_store).1 1%positive =
    S754_nan /\
  xf (sort_file [1; 2]%positive y_tol_default nan_store).1 2%positive =
    f_0_05 /\
  SFleb S754_nan f_0_05 = false.
Proof. repeat split; vm_compute; reflexivity. Qed.


(** No words, no lines. *)
Theorem sort_file_empty y_tol h : sort_file [] y_tol h = (h, Ok []).
Proof. done. Qed.

(** The specification's end-to-end example: the six words come back as the
    two lines, each from left to right, and the name is found in the first. *)
Theorem sort_file_example :
  (sort_file example_words y_tol_default example_store).2 = Ok example_lines /\
  extract_patient_name unicode_isspace latin1_isupper lines_example
    default_markers = Ok (Some (of_string "Jean"), Some (of_string "Dupont")).
Proof. split; vm_compute; reflexivity. Qed.

(** ** Further properties *)

(** No line of the result is empty. *)
Theorem sort_file_lines_nonempty ws y_tol h h1 lines :
  sort_file ws y_tol h = (h1, Ok lines) -> Forall (fun L => L <> []) lines.
Proof.
  intros Hrun. apply sort_file_ok in Hrun as (_ & _ & _ & ->).
  apply Forall_forall. intros L HL.
  apply list_elem_of_lookup in HL as [i Hi].
  apply lines_of_lookup in Hi as (k & Hk & ->).
  apply list_elem_of_lookup_2, line_keys_elem in Hk as (w & Hw & Hkw).
  intros E. assert (w ∈ py_sorted SFltb (xf h1) (bucket_of y_tol h1 ws k))
    as Hin by (by apply elem_of_line).
  rewrite E in Hin. by apply elem_of_nil in Hin.
Qed.

Lemma sort_file_lines_nonempty_witness :
  Forall (fun L : list loc => L <> []) example_lines.
Proof.
  apply (sort_file_lines_nonempty example_words y_tol_default example_store
           (sort_file example_words y_tol_default example_store).1).
  vm_compute. reflexivity.
Defined.



Lemma extract_as_specified_witness :
  extract_patient_name unicode_isspace latin1_isupper lines_example
    default_markers =
  Ok (specified_extract unicode_isspace latin1_isupper lines_example
        default_markers).
Proof.
  apply (extract_as_specified unicode_isspace latin1_isupper lines_example
           default_markers).
  - repeat constructor; done.
  - intros line marker before after Hl Hm E.
    unfold lines_example in Hl. unfold default_markers in Hm.
    in_list Hl; in_list Hm; vm_compute in E; try discriminate.
    injection E as <- <-. vm_compute. reflexivity.
Defined.

Lemma first_marker_wins_witness :
  extract_patient_name unicode_isspace latin1_isupper [line_madame_first]
    default_markers =
  Ok (Some (candidates unicode_isspace latin1_isupper
              (of_string " Jean Dupont") !!! 0%nat),
      Some (candidates unicode_isspace latin1_isupper
              (of_string " Jean Dupont") !!! 1%nat)).
Proof.
  apply (first_marker_wins unicode_isspace latin1_isupper line_madame_first []
           (of_string "Monsieur") [of_string "Madame"]
           (of_string "Madame Anne Martin ") (of_string " Jean Dupont")).
  - done.
  - vm_compute. reflexivity.
  - vm_compute. reflexivity.
  - vm_compute. lia.
Defined.

Lemma extract_total_witness :
  exists r, extract_patient_name unicode_isspace latin1_isupper lines_example
              default_markers = Ok r.
Proof.
  apply (extract_total unicode_isspace latin1_isupper lines_example
           default_markers).
  repeat constructor; done.
Defined.

(** ** Which exceptions [sort_file] raises *)

Lemma avg_of_raises d lo hi e :
  avg_of d lo hi = Raise e -> (exists k, e = KeyError k) \/ e = TypeError.
Proof.
  unfold avg_of, dict_get, subscript, mbind, result_bind.
  destruct (d !! "bbox") as [[f|s|b]|]; simpl;
    try (intros [= <-]; eauto; fail).
  unfold dict_get.
  destruct (b !! lo) as [a0|]; simpl; [|intros [= <-]; eauto].
  destruct (b !! hi) as [b0|]; simpl; [|intros [= <-]; eauto].
  destruct a0, b0; simpl; try (intros [= <-]; eauto; fail).
Qed.

Lemma annotated_raises d e :
  (annotated d).2 = Raise e -> (exists k, e = KeyError k) \/ e = TypeError.
Proof.
  unfold annotated.
  destruct (avg_of d "y_min" "y_max") as [y|e0] eqn:Ey; simpl.
  - destruct (avg_of d "x_min" "x_max") as [x|e1] eqn:Ex; simpl; [done|].
    intros [= <-]. by eapply avg_of_raises.
  - intros [= <-]. by eapply avg_of_raises.
Qed.

(** The first loop raises only at a word box that is not well formed, and
    then [KeyError] or [TypeError]. *)
Lemma annotate_all_raises ws : forall h h1 e,
  for_each annotate ws h = (h1, Raise e) ->
  ((exists k, e = KeyError k) \/ e = TypeError) /\
  exists w, w ∈ ws /\ ~ well_formed (h !!! w).
Proof.
  induction ws as [|w ws IH]; intros h h1 e Hrun; [done|].
  rewrite for_each_cons in Hrun.
  destruct (annotate w h) as [h' [[]|e0]] eqn:Ew.
  - destruct (IH _ _ _ Hrun) as [He (w' & Hin & Hwf)]. split; [done|].
    exists w'. split; [by right|]. intros Hw. apply Hwf.
    eapply well_formed_ext; [|exact Hw]. symmetry. by eapply annotate_frame.
  - injection Hrun as <- <-. rewrite annotate_eq in Ew.
    injection Ew as _ Er. split; [by eapply annotated_raises|].
    exists w. split; [left|]. intros Hw.
    apply well_formed_annotated in Hw as [d' Hd]. by rewrite Hd in Er.
Qed.

Lemma group_raises y_tol ws : forall b h h' e,
  group y_tol ws b h = (h', Raise e) ->
  exists w, w ∈ ws /\ key_of y_tol h w = Raise e.
Proof.
  induction ws as [|w ws IH]; intros b h h' e Hrun; [done|].
  simpl in Hrun. unfold mbind, M_bind in Hrun.
  rewrite bucket_key_eq in Hrun.
  destruct (key_of y_tol h w) as [k|e0] eqn:Ek.
  - apply IH in Hrun as (w' & Hin & Hk). exists w'. split; [by right|done].
  - injection Hrun as _ <-. exists w. split; [left|done].
Qed.

(** The key of a word that carries its averages: the rounded quotient, or
    the exception of the division or of the rounding. *)
Lemma key_of_averages y_tol h w :
  has_averages h w ->
  exists y, y_avg_of h w = Some y /\
    key_of y_tol h w =
    if is_zero y_tol then Raise ZeroDivisionError
    else float_round (fdiv y y_tol).
Proof.
  intros [[y Hy] _]. exists y. split; [done|].
  unfold key_of, bucket_key, mbind, M_bind, getitem, lift, dict_get.
  revert Hy. unfold y_avg_of, float_field.
  destruct ((h !!! w) !! "y_avg") as [[f| |]|]; try done.
  intros [= ->]. simpl. by destruct (is_zero y_tol).
Qed.

Lemma float_round_raises f e :
  float_round f = Raise e ->
  (e = ValueError /\ is_nan f = true) \/
  (e = OverflowError /\ exists s, f = S754_infinity s).
Proof. destruct f; simpl; intros [= <-]; eauto. Qed.

Lemma sort_file_raise_cases ws y_tol h e :
  (sort_file ws y_tol h).2 = Raise e ->
  match e with
  | KeyError _ | TypeError =>
      exists w, w ∈ ws /\ ~ well_formed (h !!! w)
  | ZeroDivisionError => is_zero y_tol = true
  | ValueError =>
      exists w y, w ∈ ws /\ y_avg_of (sort_file ws y_tol h).1 w = Some y /\
                  is_nan (fdiv y y_tol) = true
  | OverflowError =>
      exists w y s, w ∈ ws /\ y_avg_of (sort_file ws y_tol h).1 w = Some y /\
                    fdiv y y_tol = S754_infinity s
  | UnicodeEncodeError => False
  end.
Proof.
  rewrite sort_file_store, sort_file_unfold.
  destruct (for_each annotate ws h) as [h1 [[]|e1]] eqn:E1; simpl.
  2:{ intros [= <-]. destruct (annotate_all_raises _ _ _ _ E1) as [He Hw].
      by destruct He as [[k ->]| ->]. }
  pose proof (annotate_all_averages _ _ _ E1) as Hav.
  destruct (group y_tol ws ∅ h1) as [h2 [b|e2]] eqn:E2.
  - apply group_ok in E2 as (-> & Hks & ->).
    change (py_sorted Z.ltb id (map_to_list (fill y_tol h1 ws ∅)).*1)
      with (line_keys y_tol h1 ws).
    by rewrite (sort_lines_ok _ _ _ Hav).
  - simpl. intros [= <-].
    apply group_raises in E2 as (w & Hin & Hk).
    rewrite Forall_forall in Hav.
    destruct (key_of_averages y_tol h1 w (Hav w Hin)) as (y & Hy & Hkey).
    rewrite Hkey in Hk. destruct (is_zero y_tol) eqn:Hz.
    { by injection Hk as <-. }
    apply float_round_raises in Hk as [[-> Hnan]|[-> [s Hinf]]]; eauto 6.
Qed.

(** An average exists only of two numbers in a [bbox]. *)
Lemma avg_of_ok d lo hi v :
  avg_of d lo hi = Ok v ->
  exists b a c, d !! "bbox" = Some (VDict b) /\
    b !! lo = Some (VFloat a) /\ b !! hi = Some (VFloat c).
Proof.
  unfold_avg. destruct (d !! "bbox") as [[f|s|b]|]; simpl; try done.
  unfold dict_get.
  destruct (b !! lo) as [[a|a|a]|] eqn:Ea; simpl; try done;
    destruct (b !! hi) as [[c|c|c]|] eqn:Ec; simpl; try done.
  intros _. exists b, a, c. done.
Qed.

Lemma annotated_ok_well_formed d o :
  annotated d = (o, Ok tt) -> well_formed d.
Proof.
  unfold annotated.
  destruct (avg_of d "y_min" "y_max") as [y|] eqn:Ey; [|done].
  destruct (avg_of d "x_min" "x_max") as [x|] eqn:Ex; [|done].
  intros _.
  apply avg_of_ok in Ey as (b & y0 & y1 & Hb & Hy0 & Hy1).
  apply avg_of_ok in Ex as (b' & x0 & x1 & Hb' & Hx0 & Hx1).
  rewrite Hb in Hb'. injection Hb' as <-.
  exists b, y0, y1, x0, x1. done.
Qed.

Lemma annotate_all_ok_well_formed ws : forall h h1,
  for_each annotate ws h = (h1, Ok tt) ->
  Forall (fun w => well_formed (h !!! w)) ws.
Proof.
  induction ws as [|w ws IH]; intros h h1 Hrun; [constructor|].
  rewrite for_each_cons in Hrun.
  destruct (annotate w h) as [h' [[]|e]] eqn:Ew; [|done].
  constructor.
  - rewrite annotate_eq in Ew. injection Ew as _ Hr.
    destruct (annotated (h !!! w)) as [o r] eqn:E. simpl in Hr. subst r.
    by eapply annotated_ok_well_formed.
  - eapply Forall_impl; [exact (IH _ _ Hrun)|]. intros g. simpl.
    apply well_formed_ext. by eapply annotate_frame.
Qed.

(** An exception of [sort_file] leaves the first loop, or it is one of the
    three the second loop can raise. *)
Lemma sort_file_raise_where ws y_tol h e :
  (sort_file ws y_tol h).2 = Raise e ->
  (for_each annotate ws h).2 = Raise e \/
  e = ZeroDivisionError \/ e = ValueError \/ e = OverflowError.
Proof.
  intros Hrun. pose proof (sort_file_raise_cases _ _ _ _ Hrun) as Hc.
  revert Hrun. rewrite sort_file_unfold.
  destruct (for_each annotate ws h) as [h1 [[]|e1]] eqn:E1; simpl;
    [|intros [= ->]; by left].
  intros Hrun. right.
  pose proof (annotate_all_ok_well_formed _ _ _ E1) as Hwf.
  rewrite Forall_forall in Hwf.
  destruct e as [k| | | | |]; eauto.
  - destruct Hc as (w & Hin & Hw). destruct Hw. by apply Hwf.
  - destruct Hc as (w & Hin & Hw). destruct Hw. by apply Hwf.
  - done.
Qed.

Lemma float_coordinates_ext d1 d2 :
  d1 !! "bbox" = d2 !! "bbox" -> float_coordinates d1 -> float_coordinates d2.
Proof. unfold float_coordinates. by intros ->. Qed.

(** With float coordinates [annotate] raises [KeyError] with the first key
    that is missing, or [TypeError] at a [bbox] that is no dict. *)
Lemma annotated_raises_float d e :
  float_coordinates d -> (annotated d).2 = Raise e ->
  match e with
  | KeyError k => missing_field d = Some k
  | TypeError => exists v, d !! "bbox" = Some v /\ forall b, v <> VDict b
  | _ => False
  end.
Proof.
  intros Hfl. unfold missing_field. unfold_avg.
  destruct (d !! "bbox") as [[f|s|b]|] eqn:Hb; simpl;
    try (intros [= <-]; by eauto).
  assert (forall c v, c ∈ ["y_min"; "y_max"; "x_min"; "x_max"] ->
            b !! c = Some v -> exists f, v = VFloat f) as Hc
    by (intros c v; by apply Hfl).
  unfold dict_get.
  destruct (b !! "y_min") as [v0|] eqn:E0; simpl; [|by intros [= <-]].
  destruct (Hc "y_min" v0) as [f0 ->]; [set_solver|done|].
  destruct (b !! "y_max") as [v1|] eqn:E1; simpl; [|by intros [= <-]].
  destruct (Hc "y_max" v1) as [f1 ->]; [set_solver|done|]. simpl.
  destruct (b !! "x_min") as [v2|] eqn:E2; simpl; [|by intros [= <-]].
  destruct (Hc "x_min" v2) as [f2 ->]; [set_solver|done|].
  destruct (b !! "x_max") as [v3|] eqn:E3; simpl; [|by intros [= <-]].
  destruct (Hc "x_max" v3) as [f3 ->]; [set_solver|done|]. done.
Qed.

Lemma annotate_all_raises_float ws : forall h h1 e,
  Forall (fun w => float_coordinates (h !!! w)) ws ->
  for_each annotate ws h = (h1, Raise e) ->
  exists w, w ∈ ws /\
    match e with
    | KeyError k => missing_field (h !!! w) = Some k
    | TypeError =>
        exists v, (h !!! w) !! "bbox" = Some v /\ forall b, v <> VDict b
    | _ => False
    end.
Proof.
  induction ws as [|w ws IH]; intros h h1 e Hfl Hrun; [done|].
  apply Forall_cons in Hfl as [Hw Hfl].
  rewrite for_each_cons in Hrun.
  destruct (annotate w h) as [h' [[]|e0]] eqn:Ew.
  - assert (forall l, (h' !!! l) !! "bbox" = (h !!! l) !! "bbox") as Hb
      by (intros l; by eapply annotate_frame).
    destruct (IH h' h1 e) as (w' & Hin & Hw'); [|done|].
    { eapply Forall_impl; [exact Hfl|]. intros l. simpl.
      apply float_coordinates_ext. by rewrite Hb. }
    exists w'. split; [by right|].
    destruct e; try done.
    + by rewrite <- (missing_field_ext _ _ (Hb w')).
    + by rewrite <- Hb.
  - injection Hrun as <- <-. rewrite annotate_eq in Ew.
    injection Ew as _ Er. exists w. split; [left|].
    by apply annotated_raises_float.
Qed.

(** The exceptions of [sort_file] on word boxes with float coordinates. *)
Lemma sort_file_raise_float ws y_tol h e :
  Forall (fun w => float_coordinates (h !!! w)) ws ->
  (sort_file ws y_tol h).2 = Raise e ->
  match e with
  | KeyError k => exists w, w ∈ ws /\ missing_field (h !!! w) = Some k
  | TypeError =>
      exists w v, w ∈ ws /\ (h !!! w) !! "bbox" = Some v /\
                  forall b, v <> VDict b
  | ZeroDivisionError => is_zero y_tol = true
  | ValueError =>
      exists w y, w ∈ ws /\ y_avg_of (sort_file ws y_tol h).1 w = Some y /\
                  is_nan (fdiv y y_tol) = true
  | OverflowError =>
      exists w y s, w ∈ ws /\ y_avg_of (sort_file ws y_tol h).1 w = Some y /\
                    fdiv y y_tol = S754_infinity s
  | UnicodeEncodeError => False
  end.
Proof.
  intros Hfl Hrun. pose proof (sort_file_raise_cases _ _ _ _ Hrun) as Hc.
  destruct (sort_file_raise_where _ _ _ _ Hrun) as [Hfirst|Hsecond].
  - destruct (for_each annotate ws h) as [h1 r] eqn:E.
    simpl in Hfirst. subst r.
    destruct (annotate_all_raises_float _ _ _ _ Hfl E) as (w & Hin & Hw).
    destruct e; try done; [by exists w|].
    destruct Hw as (v & Hv & Hnd). by exists w, v.
  - by destruct Hsecond as [->|[->| ->]].
Qed.

(** What each exception of [sort_file] tells, for word boxes whose
    coordinates are floats: [KeyError] carries the first key a word box of
    the list lacks ([bbox] or a coordinate); [TypeError] comes from a [bbox]
    that is no dict; [ZeroDivisionError] from a zero tolerance; [ValueError]
    from a quotient [y_avg / y_tol] that is NaN and [OverflowError] from one
    that is infinite. *)
Theorem sort_file_exceptions ws y_tol h e :
  Forall (fun w => float_coordinates (h !!! w)) ws ->
  (sort_file ws y_tol h).2 = Raise e ->
  match e with
  | KeyError k => exists w, w ∈ ws /\ missing_field (h !!! w) = Some k
  | TypeError =>
      exists w v, w ∈ ws /\ (h !!! w) !! "bbox" = Some v /\
                  forall b, v <> VDict b
  | ZeroDivisionError => is_zero y_tol = true
  | ValueError =>
      exists w y, w ∈ ws /\ y_avg_of (sort_file ws y_tol h).1 w = Some y /\
                  is_nan (fdiv y y_tol) = true
  | OverflowError =>
      exists w y s, w ∈ ws /\ y_avg_of (sort_file ws y_tol h).1 w = Some y /\
                    fdiv y y_tol = S754_infinity s
  | UnicodeEncodeError => False
  end.
Proof. apply sort_file_raise_float. Qed.

Lemma sort_file_exceptions_witness :
  exists w, w ∈ [2; 1]%positive /\ missing_field (bad_store !!! w) = Some "bbox".
Proof.
  apply (sort_file_exceptions [2; 1]%positive y_tol_default bad_store
           (KeyError "bbox")).
  - repeat constructor; float_coords.
  - vm_compute. reflexivity.
Defined.

(** ** Lines and keys *)

(** Two words of the input stand in the same line exactly when they have
    the same bucket key. *)
Theorem same_line_iff_same_key ws y_tol h h1 lines w1 w2 :
  sort_file ws y_tol h = (h1, Ok lines) -> w1 ∈ ws -> w2 ∈ ws ->
  (exists L, L ∈ lines /\ w1 ∈ L /\ w2 ∈ L) <->
  key_of y_tol h1 w1 = key_of y_tol h1 w2.
Proof.
  intros Hrun H1 H2. apply sort_file_ok in Hrun as (_ & Hks & _ & ->).
  rewrite Forall_forall in Hks.
  rewrite (key_of_keyf _ _ _ (Hks _ H1)), (key_of_keyf _ _ _ (Hks _ H2)).
  split.
  - intros (L & HL & Hw1 & Hw2).
    apply list_elem_of_lookup in HL as [i Hi].
    apply lines_of_lookup in Hi as (k & Hk & ->).
    apply elem_of_line in Hw1 as [_ ->]. by apply elem_of_line in Hw2 as [_ ->].
  - intros [= Hk].
    assert (keyf y_tol h1 w1 ∈ line_keys y_tol h1 ws) as Hin
      by (apply line_keys_elem; eauto).
    apply list_elem_of_lookup in Hin as [i Hi].
    exists (py_sorted SFltb (xf h1) (bucket_of y_tol h1 ws (keyf y_tol h1 w1))).
    split; [|split].
    + apply list_elem_of_lookup. exists i. unfold lines_of.
      by rewrite list_lookup_fmap, Hi.
    + by apply elem_of_line.
    + by apply elem_of_line.
Qed.

Lemma same_line_iff_same_key_witness :
  (exists L, L ∈ example_lines /\ 3%positive ∈ L /\ 1%positive ∈ L) <->
  key_of y_tol_default
    (sort_file example_words y_tol_default example_store).1 3%positive =
  key_of y_tol_default
    (sort_file example_words y_tol_default example_store).1 1%positive.
Proof.
  apply (same_line_iff_same_key example_words y_tol_default example_store).
  - vm_compute. reflexivity.
  - unfold example_words. set_solver.
  - unfold example_words. set_solver.
Defined.

Lemma lines_of_nonempty y_tol h ws :
  Forall (fun L => L <> []) (lines_of y_tol h ws).
Proof.
  apply Forall_forall. intros L HL.
  apply list_elem_of_lookup in HL as [i Hi].
  apply lines_of_lookup in Hi as (k & Hk & ->).
  apply list_elem_of_lookup_2, line_keys_elem in Hk as (w & Hw & Hkw).
  intros E. assert (w ∈ py_sorted SFltb (xf h) (bucket_of y_tol h ws k))
    as Hin by (by apply elem_of_line).
  rewrite E in Hin. by apply elem_of_nil in Hin.
Qed.

Lemma length_concat_nonempty {A} (ls : list (list A)) :
  Forall (fun L => L <> []) ls -> (length ls <= length (concat ls))%nat.
Proof.
  induction 1 as [|L ls HL Hls IH]; simpl; [lia|].
  rewrite length_app. destruct L; [done|]. simpl. lia.
Qed.

(** There are at most as many lines as words, and a single word comes back
    as one line that holds it. *)
Theorem sort_file_line_count ws y_tol h h1 lines :
  sort_file ws y_tol h = (h1, Ok lines) ->
  (length lines <= length ws)%nat /\
  (forall w, ws = [w] -> lines = [[w]]).
Proof.
  intros Hrun. apply sort_file_ok in Hrun as (_ & _ & _ & ->).
  pose proof (lines_of_nonempty y_tol h1 ws) as Hne.
  pose proof (concat_lines_of y_tol h1 ws) as Hperm.
  pose proof (length_concat_nonempty _ Hne) as Hlen.
  rewrite (Permutation_length Hperm) in Hlen. split; [done|].
  intros w ->. simpl in Hlen.
  destruct (lines_of y_tol h1 [w]) as [|L [|L' ls]]; simpl in *.
  - by apply Permutation_nil_cons in Hperm.
  - rewrite app_nil_r in Hperm. by apply Permutation_singleton_r in Hperm as ->.
  - lia.
Qed.

Lemma sort_file_line_count_witness :
  (length example_lines <= length example_words)%nat /\
  (forall w, example_words = [w] -> example_lines = [[w]]).
Proof.
  apply (sort_file_line_count example_words y_tol_default example_store
           (sort_file example_words y_tol_default example_store).1).
  vm_compute. reflexivity.
Defined.

(** ** [format_json] *)

Lemma map_M_read {A B} (f : A -> M B) (g : A -> result B) l h :
  (forall a, f a h = (h, g a)) -> map_M f l h = (h, map_R g l).
Proof.
  intros Hf. induction l as [|a l IH]; [done|].
  simpl. unfold mbind at 1, M_bind at 1. rewrite Hf.
  destruct (g a) as [b|e]; simpl; [|done].
  unfold mbind at 1, M_bind at 1. rewrite IH.
  by destruct (map_R g l).
Qed.

Lemma join_line_eq line h : join_line line h = (h, line_text h line).
Proof.
  unfold join_line, line_text. unfold mbind at 1, M_bind at 1.
  rewrite (map_M_read _ (fun w => dict_get (h !!! w) "text")) by done.
  destruct (map_R _ line) as [texts|e]; simpl; [|done].
  unfold mbind, M_bind, lift.
  by destruct (map_R as_str texts).
Qed.

(** [format_json] after the first loop of [sort_file] only reads the
    store. *)
Lemma format_json_words page pages w ws h :
  words_of page = Some (w :: ws) ->
  format_json {| pages_of := Some (page :: pages) |} h =
  match sort_file (w :: ws) y_tol_default h with
  | (h1, Ok lines) => (h1, map_R (line_text h1) lines)
  | (h1, Raise e) => (h1, Raise e)
  end.
Proof.
  intros Hw. unfold format_json. simpl. rewrite Hw. simpl.
  unfold mbind, M_bind.
  destruct (sort_file (w :: ws) y_tol_default h) as [h1 [lines|e]]; [|done].
  apply map_M_read. intros line. apply join_line_eq.
Qed.

Lemma format_json_store data h :
  (format_json data h).1 = h \/
  exists ws, (format_json data h).1 = (sort_file ws y_tol_default h).1.
Proof.
  destruct data as [[[|[[[|w ws]|]] pages]|]]; try (by left).
  right. exists (w :: ws). rewrite (format_json_words _ _ w ws) by done.
  by destruct (sort_file (w :: ws) y_tol_default h) as [h1 [lines|e]].
Qed.

(** Whatever [format_json] comes to, it leaves [bbox] and [text] of every
    word dict as they were, and changes no key but [y_avg] and [x_avg]. *)
Theorem format_json_frame data h l k :
  k <> "y_avg" -> k <> "x_avg" ->
  ((format_json data h).1 !!! l) !! k = (h !!! l) !! k.
Proof.
  intros Hy Hx. destruct (format_json_store data h) as [->|[ws ->]]; [done|].
  rewrite sort_file_store.
  destruct (for_each annotate ws h) as [h1 r1] eqn:E1. simpl.
  by eapply annotate_all_frame.
Qed.

Lemma format_json_frame_witness :
  ((format_json example_document example_store).1 !!! 1%positive) !! "text"
  = (example_store !!! 1%positive) !! "text".
Proof.
  apply (format_json_frame example_document example_store 1%positive "text");
    done.
Defined.

Lemma map_R_ok {A B} (f : A -> result B) (g : A -> B) l :
  Forall (fun a => f a = Ok (g a)) l -> map_R f l = Ok (g <$> l).
Proof.
  induction 1 as [|a l Ha Hl IH]; [done|]. simpl. by rewrite Ha, IH.
Qed.

(** When every item comes to a value or to the exception [e], and one
    comes to [e], the whole comes to [e]. *)
Lemma map_R_raise {A B} (f : A -> result B) e l :
  Forall (fun a => is_ok (f a) = true \/ f a = Raise e) l ->
  Exists (fun a => f a = Raise e) l ->
  map_R f l = Raise e.
Proof.
  induction 1 as [|a l Ha Hl IH]; intros Hex; [by inversion Hex|].
  simpl. destruct (f a) as [b|e'] eqn:Efa; simpl.
  - rewrite IH; [done|]. inversion Hex as [? ? Hbad|]; subst; [|done].
    congruence.
  - destruct Ha as [Ha|Ha]; [done|]. by injection Ha as ->.
Qed.

Section JoinFacts.
Context (isspace : char -> bool).

Lemma scan_words_word w t :
  Forall (fun c => isspace c = false) w ->
  scan_words isspace (w ++ t) =
  (w ++ (scan_words isspace t).1, (scan_words isspace t).2).
Proof.
  induction 1 as [|c w Hc Hw IH]; simpl; [by destruct (scan_words isspace t)|].
  by rewrite IH, Hc.
Qed.

Lemma split_ws_word w : is_word isspace w -> split_ws isspace w = [w].
Proof.
  intros [Hne Hw]. unfold split_ws.
  rewrite <- (app_nil_r w) at 1. rewrite scan_words_word by done.
  simpl. rewrite app_nil_r. by destruct w.
Qed.

Lemma split_ws_word_blank w c t :
  is_word isspace w -> isspace c = true ->
  split_ws isspace (w ++ c :: t) = w :: split_ws isspace t.
Proof.
  intros [Hne Hw] Hc. unfold split_ws. rewrite scan_words_word by done.
  simpl. rewrite Hc. destruct (scan_words isspace t) as [w' ws'].
  simpl. rewrite app_nil_r. by destruct w.
Qed.

(** Splitting a line that was joined with blanks gives back the words. *)
Lemma split_ws_join sep ws :
  isspace sep = true -> Forall (is_word isspace) ws ->
  split_ws isspace (py_join [sep] ws) = ws.
Proof.
  intros Hsep. induction 1 as [|w ws Hw Hws IH]; [done|].
  destruct ws as [|w2 ws]; [by apply split_ws_word|].
  change (py_join [sep] (w :: w2 :: ws))
    with (w ++ sep :: py_join [sep] (w2 :: ws)).
  rewrite split_ws_word_blank by done. by rewrite IH.
Qed.
End JoinFacts.

Lemma text_of_str h w s :
  (h !!! w) !! "text" = Some (VStr s) -> text_of h w = s.
Proof. unfold text_of. by intros ->. Qed.

Lemma line_text_strings h line :
  Forall (fun w => exists s, (h !!! w) !! "text" = Some (VStr s)) line ->
  line_text h line = Ok (py_join [32%N] (text_of h <$> line)).
Proof.
  intros Hs. unfold line_text.
  rewrite (map_R_ok _ (fun w => VStr (text_of h w))).
  - simpl. rewrite (map_R_ok _ (fun v => match v with VStr s => s | _ => [] end)).
    + simpl. by rewrite <- list_fmap_compose.
    + apply Forall_forall. by intros v (w & -> & _)%list_elem_of_fmap.
  - eapply Forall_impl; [exact Hs|]. intros w [s Hw]. simpl.
    unfold dict_get. by rewrite (text_of_str _ _ _ Hw), Hw.
Qed.

(** The round trip from words to text lines and back: when the text of
    every word of the first page is a string without blanks, not empty, each
    line [format_json] returns splits back into the texts of the words of
    the corresponding line of [sort_file], in the same order. *)
Theorem format_json_tokens isspace page pages ws h h1 lines_text :
  isspace 32%N = true ->
  words_of page = Some ws ->
  Forall (fun w => exists s, (h !!! w) !! "text" = Some (VStr s) /\
                             is_word isspace s) ws ->
  format_json {| pages_of := Some (page :: pages) |} h = (h1, Ok lines_text) ->
  exists lines,
    sort_file ws y_tol_default h = (h1, Ok lines) /\
    split_ws isspace <$> lines_text = (fun line => text_of h <$> line) <$> lines.
Proof.
  intros Hsp Hws Htexts Hrun. destruct ws as [|w ws].
  { unfold format_json in Hrun. simpl in Hrun. rewrite Hws in Hrun.
    injection Hrun as <- <-. by exists []. }
  rewrite (format_json_words _ _ w ws) in Hrun by done.
  destruct (sort_file (w :: ws) y_tol_default h) as [h' [lines|e]] eqn:Es;
    [|done].
  injection Hrun as -> Hlines. exists lines. split; [done|].
  pose proof Es as Hok. apply sort_file_ok in Hok as (Hann & _ & _ & Hl).
  assert (forall v, v ∈ w :: ws ->
            exists s, (h1 !!! v) !! "text" = Some (VStr s) /\
                      is_word isspace s /\ text_of h1 v = text_of h v) as Ht.
  { intros v Hv. rewrite Forall_forall in Htexts.
    destruct (Htexts v Hv) as (s & Hs & Hword).
    assert ((h1 !!! v) !! "text" = Some (VStr s)) as Hs1.
    { rewrite <- Hs. by eapply annotate_all_frame. }
    exists s. by rewrite (text_of_str _ _ _ Hs1), (text_of_str _ _ _ Hs). }
  assert (forall line v, line ∈ lines -> v ∈ line -> v ∈ w :: ws) as Hin.
  { intros line v Hline Hv. rewrite <- (concat_lines_of y_tol_default h1).
    rewrite <- Hl. apply list_elem_of_In, in_concat.
    exists line. by rewrite <- !list_elem_of_In. }
  clear Es Hann Hl. revert lines_text Hlines.
  induction lines as [|line lines IH]; intros lines_text Hlines.
  { by injection Hlines as <-. }
  simpl in Hlines. rewrite line_text_strings in Hlines.
  2:{ apply Forall_forall. intros v Hv.
      destruct (Ht v) as (s & Hs & _); [|by eauto].
      eapply Hin; [left|done]. }
  simpl in Hlines.
  destruct (map_R (line_text h1) lines) as [rest|] eqn:Er; [|done].
  injection Hlines as <-. rewrite !fmap_cons. f_equal.
  - rewrite split_ws_join; [|done|].
    + apply list_fmap_ext. intros i v Hv.
      apply list_elem_of_lookup_2 in Hv.
      destruct (Ht v) as (_ & _ & _ & E); [|done]. eapply Hin; [left|done].
    + apply Forall_fmap, Forall_forall. intros v Hv. simpl.
      destruct (Ht v) as (s & Hs & Hword & _); [eapply Hin; [left|done]|].
      by rewrite (text_of_str _ _ _ Hs).
  - apply IH; [|done]. intros l v Hl. apply Hin. by right.
Qed.

Lemma format_json_tokens_witness :
  exists lines,
    sort_file example_words y_tol_default example_store =
      ((format_json example_document example_store).1, Ok lines) /\
    split_ws unicode_isspace <$>
      [of_string "Monsieur Jean Dupont ne"; of_string "le 12/01/1980"] =
    (fun line => text_of example_store <$> line) <$> lines.
Proof.
  apply (format_json_tokens unicode_isspace
           {| words_of := Some example_words |} [] example_words
           example_store).
  - done.
  - done.
  - unfold example_words. repeat constructor;
      (eexists; split; [vm_compute; reflexivity|];
       split; [done|repeat constructor]).
  - vm_compute. reflexivity.
Defined.

Lemma map_R_raises {A B} (f : A -> result B) l e :
  map_R f l = Raise e -> exists a, a ∈ l /\ f a = Raise e.
Proof.
  induction l as [|a l IH]; [done|]. simpl.
  destruct (f a) as [b|e0] eqn:Ea; simpl.
  - destruct (map_R f l) as [bs|e1]; [done|]. intros [= <-].
    destruct IH as (a' & Hin & Ha'); [done|]. exists a'. split; [by right|done].
  - intros [= <-]. exists a. split; [left|done].
Qed.

Lemma line_text_raises h line e :
  line_text h line = Raise e -> e = KeyError "text" \/ e = TypeError.
Proof.
  unfold line_text.
  destruct (map_R (fun w => dict_get (h !!! w) "text") line)
    as [texts|e0] eqn:Et; simpl.
  - destruct (map_R as_str texts) as [strs|e1] eqn:Es; simpl; [done|].
    intros [= <-]. apply map_R_raises in Es as (v & _ & Hv).
    right. destruct v; by simplify_eq/=.
  - intros [= <-]. apply map_R_raises in Et as (w & _ & Hw).
    left. unfold dict_get in Hw. destruct ((h !!! w) !! "text"); by simplify_eq.
Qed.

(** A line with a word that has no [text], the texts there are being
    strings: [join] comes to [KeyError]. *)
Lemma line_text_missing h line :
  Forall (fun w => forall v, (h !!! w) !! "text" = Some v ->
                             exists s, v = VStr s) line ->
  (exists w, w ∈ line /\ (h !!! w) !! "text" = None) ->
  line_text h line = Raise (KeyError "text").
Proof.
  intros Hstr (w & Hin & Hw). unfold line_text.
  rewrite (map_R_raise _ (KeyError "text")); [done| |].
  - apply Forall_forall. intros v _. unfold dict_get.
    destruct ((h !!! v) !! "text"); [by left|by right].
  - apply Exists_exists. exists w. split; [done|].
    unfold dict_get. by rewrite Hw.
Qed.

(** A word without [text] is found out only after the lines are built: the
    words carry their averages, and [format_json] raises [KeyError] for the
    key [text] (the texts that are there being strings). *)
Theorem format_json_missing_text page pages ws h h1 lines :
  words_of page = Some ws ->
  sort_file ws y_tol_default h = (h1, Ok lines) ->
  Forall (fun w => forall v, (h !!! w) !! "text" = Some v ->
                             exists s, v = VStr s) ws ->
  (exists w, w ∈ ws /\ (h !!! w) !! "text" = None) ->
  format_json {| pages_of := Some (page :: pages) |} h =
  (h1, Raise (KeyError "text")).
Proof.
  intros Hws Hrun Hstr (w & Hin & Hw).
  destruct ws as [|w0 ws0]; [by apply elem_of_nil in Hin|].
  rewrite (format_json_words _ _ w0 ws0), Hrun by done. f_equal.
  pose proof Hrun as Hok. apply sort_file_ok in Hok as (Hann & _ & _ & Hl).
  assert (forall v, (h1 !!! v) !! "text" = (h !!! v) !! "text") as Hsame
    by (intros v; by eapply annotate_all_frame).
  assert (forall line v, line ∈ lines -> v ∈ line -> v ∈ w0 :: ws0) as Hsub.
  { intros line v Hline Hv. rewrite <- (concat_lines_of y_tol_default h1).
    rewrite <- Hl. apply list_elem_of_In, in_concat.
    exists line. by rewrite <- !list_elem_of_In. }
  assert (exists line, line ∈ lines /\ w ∈ line) as (bad & Hbad & Hwbad).
  { rewrite <- (concat_lines_of y_tol_default h1), <- Hl in Hin.
    apply list_elem_of_In, in_concat in Hin as (line & H1 & H2).
    exists line. by rewrite !list_elem_of_In. }
  assert (forall line, line ∈ lines ->
            Forall (fun v => forall t, (h1 !!! v) !! "text" = Some t ->
                                       exists s, t = VStr s) line) as Hline.
  { intros line Hl'. apply Forall_forall. intros v Hv t Ht.
    rewrite Forall_forall in Hstr. apply (Hstr v); [by eapply Hsub|].
    by rewrite <- Hsame. }
  apply map_R_raise.
  - apply Forall_forall. intros line Hl'.
    destruct (decide (Forall (fun v => is_Some ((h1 !!! v) !! "text")) line))
      as [Hall|Hnot].
    + left. rewrite line_text_strings; [done|].
      pose proof (Hline line Hl') as Hs. rewrite Forall_forall in Hall, Hs.
      apply Forall_forall. intros v Hv. destruct (Hall v Hv) as [t Ht].
      destruct (Hs v Hv t Ht) as [s0 ->]. eauto.
    + right. apply line_text_missing; [by apply Hline|].
      apply not_Forall_Exists in Hnot; [|apply _].
      apply Exists_exists in Hnot as (v & Hv & Hnone). exists v. split; [done|].
      simpl in Hnone. by destruct ((h1 !!! v) !! "text"); [destruct Hnone|].
  - apply Exists_exists. exists bad. split; [done|].
    apply line_text_missing; [by apply Hline|].
    exists w. split; [done|]. by rewrite Hsame.
Qed.

Lemma format_json_missing_text_witness :
  exists h1,
    format_json textless_document textless_store =
    (h1, Raise (KeyError "text")).
Proof.
  eexists.
  eapply (format_json_missing_text {| words_of := Some [1; 2]%positive |} []
            [1; 2]%positive textless_store).
  - reflexivity.
  - vm_compute. reflexivity.
  - repeat constructor; intros v; vm_compute; intros [= <-]; eauto.
  - exists 2%positive. split; [by right; left|]. vm_compute. reflexivity.
Defined.

(** ** Which exceptions [format_json] raises *)

Lemma map_R_elem {A B} (f : A -> result B) l bs b :
  map_R f l = Ok bs -> b ∈ bs -> exists a, a ∈ l /\ f a = Ok b.
Proof.
  revert bs. induction l as [|a l IH]; intros bs; simpl.
  { intros [= <-] Hb. by apply elem_of_nil in Hb. }
  destruct (f a) as [b0|e0] eqn:Ea; simpl; [|done].
  destruct (map_R f l) as [bs0|e1]; simpl; [|done].
  intros [= <-] [->|Hb]%elem_of_cons.
  - exists a. split; [left|done].
  - destruct (IH bs0 eq_refl Hb) as (a' & Hin & Ha').
    exists a'. split; [by right|done].
Qed.

(** [join] raises at a word whose [text] is missing or is no string. *)
Lemma line_text_raises_word h line e :
  line_text h line = Raise e ->
  exists w, w ∈ line /\ forall s, (h !!! w) !! "text" <> Some (VStr s).
Proof.
  unfold line_text.
  destruct (map_R (fun w => dict_get (h !!! w) "text") line)
    as [texts|e0] eqn:Et; simpl.
  - destruct (map_R as_str texts) as [strs|e1] eqn:Es; simpl; [done|].
    intros _. apply map_R_raises in Es as (v & Hv & Hstr).
    destruct (map_R_elem _ _ _ _ Et Hv) as (w & Hw & Hget).
    exists w. split; [done|]. intros s Hs. unfold dict_get in Hget.
    rewrite Hs in Hget. injection Hget as <-. done.
  - intros _. apply map_R_raises in Et as (w & Hw & Hget).
    exists w. split; [done|]. intros s Hs. unfold dict_get in Hget.
    by rewrite Hs in Hget.
Qed.

Lemma y_tol_default_not_zero : is_zero y_tol_default = false.
Proof. reflexivity. Qed.

Lemma format_json_raise_cases data h e :
  (format_json data h).2 = Raise e ->
  match e with
  | ValueError =>
      default [] (pages_of data) = [] \/
      exists page pages ws w y,
        pages_of data = Some (page :: pages) /\ words_of page = Some ws /\
        w ∈ ws /\ y_avg_of (format_json data h).1 w = Some y /\
        is_nan (fdiv y y_tol_default) = true
  | OverflowError =>
      exists page pages ws w y s,
        pages_of data = Some (page :: pages) /\ words_of page = Some ws /\
        w ∈ ws /\ y_avg_of (format_json data h).1 w = Some y /\
        fdiv y y_tol_default = S754_infinity s
  | KeyError _ | TypeError =>
      exists page pages ws w,
        pages_of data = Some (page :: pages) /\ words_of page = Some ws /\
        w ∈ ws /\
        (~ well_formed (h !!! w) \/
         forall s, (h !!! w) !! "text" <> Some (VStr s))
  | ZeroDivisionError | UnicodeEncodeError => False
  end.
Proof.
  destruct data as [[[|[[[|w0 ws0]|]] pages]|]];
    try (by intros [= <-]; left); try done.
  rewrite (format_json_words _ _ w0 ws0) by done.
  pose proof (sort_file_raise_cases (w0 :: ws0) y_tol_default h) as Hsort.
  destruct (sort_file (w0 :: ws0) y_tol_default h) as [h1 [lines|e1]] eqn:Erun;
    simpl in *.
  - intros Hjoin. apply map_R_raises in Hjoin as (line & Hline & Hjoin).
    pose proof (line_text_raises _ _ _ Hjoin) as He.
    apply line_text_raises_word in Hjoin as (w & Hw & Htext).
    apply sort_file_ok in Erun as (Hann & _ & _ & ->).
    assert (w ∈ w0 :: ws0) as Hin.
    { rewrite <- (concat_lines_of y_tol_default h1).
      apply list_elem_of_In, in_concat. exists line.
      by rewrite <- !list_elem_of_In. }
    assert (forall s, (h !!! w) !! "text" <> Some (VStr s)) as Htext'.
    { intros s. rewrite <- (annotate_all_frame _ _ _ _ w "text" Hann) by done.
      apply Htext. }
    destruct He as [-> | ->]; eauto 10.
  - intros [= <-]. specialize (Hsort e1 eq_refl).
    destruct e1 as [k| | | | |].
    + destruct Hsort as (w & Hw & Hwf). eauto 10.
    + destruct Hsort as (w & Hw & Hwf). eauto 10.
    + done.
    + right. destruct Hsort as (w & y & Hw & Hy & Hnan). eauto 10.
    + destruct Hsort as (w & y & s & Hw & Hy & Hinf). eauto 12.
    + done.
Qed.

(** [join] raises [KeyError] at a word without [text], and [TypeError] at a
    word whose [text] is no string. *)
Lemma line_text_raise_cases h line e :
  line_text h line = Raise e ->
  exists w, w ∈ line /\
    match e with
    | KeyError k => k = "text" /\ (h !!! w) !! "text" = None
    | TypeError =>
        exists v, (h !!! w) !! "text" = Some v /\ forall s, v <> VStr s
    | _ => False
    end.
Proof.
  unfold line_text.
  destruct (map_R (fun w => dict_get (h !!! w) "text") line)
    as [texts|e0] eqn:Et; simpl.
  - destruct (map_R as_str texts) as [strs|e1] eqn:Es; simpl; [done|].
    intros [= <-]. apply map_R_raises in Es as (v & Hv & Hstr).
    destruct (map_R_elem _ _ _ _ Et Hv) as (w & Hw & Hget).
    exists w. split; [done|]. unfold dict_get in Hget.
    destruct ((h !!! w) !! "text") as [v'|] eqn:Ew; [|done].
    injection Hget as ->.
    destruct v; simpl in Hstr; simplify_eq; by eexists.
  - intros [= <-]. apply map_R_raises in Et as (w & Hw & Hget).
    exists w. split; [done|]. unfold dict_get in Hget.
    destruct ((h !!! w) !! "text") as [v'|] eqn:Ew; by simplify_eq.
Qed.

(** The exceptions of [format_json] on a document whose first page holds
    the word dicts [ws], their coordinates being floats. *)
Lemma format_json_raise_float data page pages ws h e :
  pages_of data = Some (page :: pages) -> words_of page = Some ws ->
  Forall (fun w => float_coordinates (h !!! w)) ws ->
  (format_json data h).2 = Raise e ->
  match e with
  | KeyError k =>
      exists w, w ∈ ws /\
        (missing_field (h !!! w) = Some k \/
         (k = "text" /\ (h !!! w) !! "text" = None))
  | TypeError =>
      exists w v, w ∈ ws /\
        (((h !!! w) !! "bbox" = Some v /\ forall b, v <> VDict b) \/
         ((h !!! w) !! "text" = Some v /\ forall s, v <> VStr s))
  | ValueError =>
      exists w y, w ∈ ws /\ y_avg_of (format_json data h).1 w = Some y /\
                  is_nan (fdiv y y_tol_default) = true
  | OverflowError =>
      exists w y s, w ∈ ws /\ y_avg_of (format_json data h).1 w = Some y /\
                    fdiv y y_tol_default = S754_infinity s
  | ZeroDivisionError | UnicodeEncodeError => False
  end.
Proof.
  intros Hp Hws Hfl. destruct data as [ps]. simpl in Hp. subst ps.
  destruct ws as [|w0 ws0].
  { unfold format_json. simpl. by rewrite Hws. }
  rewrite (format_json_words _ _ w0 ws0) by done.
  pose proof (sort_file_raise_float (w0 :: ws0) y_tol_default h) as Hsort.
  destruct (sort_file (w0 :: ws0) y_tol_default h) as [h1 [lines|e1]] eqn:Erun.
  - cbn [fst snd]. intros Hjoin.
    apply map_R_raises in Hjoin as (line & Hline & Hjoin).
    apply line_text_raise_cases in Hjoin as (w & Hw & Hcase).
    apply sort_file_ok in Erun as (Hann & _ & _ & ->).
    assert (w ∈ w0 :: ws0) as Hin.
    { rewrite <- (concat_lines_of y_tol_default h1).
      apply list_elem_of_In, in_concat. exists line.
      by rewrite <- !list_elem_of_In. }
    rewrite (annotate_all_frame _ _ _ _ w "text" Hann) in Hcase by done.
    destruct e; try done.
    + destruct Hcase as [-> Hnone]. exists w. split; [done|]. by right.
    + destruct Hcase as (v & Hv & Hns). exists w, v. split; [done|]. by right.
  - cbn [fst snd]. intros [= <-]. specialize (Hsort e1 Hfl eq_refl).
    cbn [fst snd] in Hsort. destruct e1; try done.
    + destruct Hsort as (w & Hin & Hm). exists w. split; [done|]. by left.
    + destruct Hsort as (w & v & Hin & Hv & Hnd).
      exists w, v. split; [done|]. by left.
Qed.

(** What each exception of [format_json] tells, for a document whose first
    page holds a list of word dicts with float coordinates.  [KeyError]
    carries the first key a word box lacks ([bbox] or a coordinate), or it
    carries [text] for a word without text; [TypeError] comes from a [bbox]
    that is no dict or from a text that is no string; [ValueError] from a
    word whose [y_avg / 0.005] is NaN and [OverflowError] from one whose
    quotient is infinite; the tolerance being 0.005, [ZeroDivisionError] is
    never raised. *)
Theorem format_json_exceptions data page pages ws h e :
  pages_of data = Some (page :: pages) -> words_of page = Some ws ->
  Forall (fun w => float_coordinates (h !!! w)) ws ->
  (format_json data h).2 = Raise e ->
  match e with
  | KeyError k =>
      exists w, w ∈ ws /\
        (missing_field (h !!! w) = Some k \/
         (k = "text" /\ (h !!! w) !! "text" = None))
  | TypeError =>
      exists w v, w ∈ ws /\
        (((h !!! w) !! "bbox" = Some v /\ forall b, v <> VDict b) \/
         ((h !!! w) !! "text" = Some v /\ forall s, v <> VStr s))
  | ValueError =>
      exists w y, w ∈ ws /\ y_avg_of (format_json data h).1 w = Some y /\
                  is_nan (fdiv y y_tol_default) = true
  | OverflowError =>
      exists w y s, w ∈ ws /\ y_avg_of (format_json data h).1 w = Some y /\
                    fdiv y y_tol_default = S754_infinity s
  | ZeroDivisionError | UnicodeEncodeError => False
  end.
Proof. apply format_json_raise_float. Qed.

Lemma format_json_exceptions_witness :
  exists w, w ∈ [1; 2]%positive /\
    (missing_field (textless_store !!! w) = Some "text" \/
     ("text" = "text" /\ (textless_store !!! w) !! "text" = None)).
Proof.
  apply (format_json_exceptions textless_document
           {| words_of := Some [1; 2]%positive |} [] [1; 2]%positive
           textless_store (KeyError "text")).
  - reflexivity.
  - reflexivity.
  - repeat constructor; float_coords.
  - vm_compute. reflexivity.
Defined.

(** ** [main] *)

Lemma default_markers_nonempty : Forall (fun m => m <> []) default_markers.
Proof. by repeat constructor. Qed.

Section MainFacts.
Context (isspace isupper encodable : char -> bool).

Lemma scan_markers_returns line markers :
  Forall (fun m => m <> []) markers ->
  exists o, scan_markers isspace isupper line markers = Ok o.
Proof.
  induction 1 as [|m ms Hne Hms IH]; [by eexists|].
  rewrite scan_markers_cons by done.
  destruct (partition_first m line) as [[b a]|]; [|done].
  cbv zeta. case_len; [by eexists|done].
Qed.

(** With markers that are not empty the extractor returns, and what it
    returns is nothing or two names that are not empty. *)
Lemma extract_outcome lines markers :
  Forall (fun m => m <> []) markers ->
  extract_patient_name isspace isupper lines markers = Ok (None, None) \/
  exists f l,
    extract_patient_name isspace isupper lines markers = Ok (Some f, Some l) /\
    f <> [] /\ l <> [].
Proof.
  intros Hm. induction lines as [|line lines IH]; [by left|].
  rewrite extract_cons.
  destruct (scan_markers_returns line markers Hm) as [[[f l]|] E]; rewrite E;
    [|done].
  right. exists f, l. split; [done|].
  apply scan_markers_pair in E as [[[? _] _] [[? _] _]]. done.
Qed.

Lemma main_loaded data h :
  main isspace isupper encodable (Loaded data) h =
  match format_json data h with
  | (h', Raise e) => if caught e then (h', Ok PrintedError) else (h', Raise e)
  | (h', Ok lines_text) =>
      (h', match extract_patient_name isspace isupper lines_text
                   default_markers with
           | Ok (Some f, Some l) => print_names encodable f l
           | _ => Ok PrintedNotFound
           end)
  end.
Proof.
  unfold main. destruct (format_json data h) as [h' [lines_text|e]]; [|done].
  destruct (extract_outcome lines_text default_markers
              default_markers_nonempty) as [->|(f & l & -> & Hf & Hl)];
    [done|].
  by destruct f, l.
Qed.

(** When [format_json] returns the lines, [main] goes by what the extractor
    finds in them: it prints that no name was found when the extractor
    returns [(None, None)]; when it returns a pair it prints the two names,
    or [print] raises [UnicodeEncodeError] because the standard output
    cannot encode them.  The test [first_name and last_name] never turns a
    pair down, and the extractor raises nothing. *)
Theorem main_prints_what_is_found data h lines_text :
  (format_json data h).2 = Ok lines_text ->
  (extract_patient_name isspace isupper lines_text default_markers
     = Ok (None, None) /\
   (main isspace isupper encodable (Loaded data) h).2 = Ok PrintedNotFound) \/
  (exists f l,
     extract_patient_name isspace isupper lines_text default_markers
       = Ok (Some f, Some l) /\
     (main isspace isupper encodable (Loaded data) h).2 =
       if forallb encodable f && forallb encodable l
       then Ok (PrintedName f l) else Raise UnicodeEncodeError).
Proof.
  intros Hrun. rewrite main_loaded.
  destruct (format_json data h) as [h' r]. simpl in Hrun. subst r. simpl.
  destruct (extract_outcome lines_text default_markers
              default_markers_nonempty) as [->|(f & l & -> & _)]; eauto.
Qed.

(** The exceptions that leave [main], for a document whose first page holds
    a list of word dicts with float coordinates.  Either the exception
    leaves [format_json], and it is [KeyError], [TypeError] or
    [OverflowError] (a [ValueError] is caught, nothing divides by zero); or
    the lines were built, the extractor found two names, and [print] raises
    [UnicodeEncodeError] because the standard output cannot encode them. *)
Theorem main_uncaught data page pages ws h e :
  pages_of data = Some (page :: pages) -> words_of page = Some ws ->
  Forall (fun w => float_coordinates (h !!! w)) ws ->
  (main isspace isupper encodable (Loaded data) h).2 = Raise e ->
  ((format_json data h).2 = Raise e /\
   ((exists k, e = KeyError k) \/ e = TypeError \/ e = OverflowError)) \/
  (e = UnicodeEncodeError /\
   exists lines_text f l,
     (format_json data h).2 = Ok lines_text /\
     extract_patient_name isspace isupper lines_text default_markers
       = Ok (Some f, Some l) /\
     forallb encodable f && forallb encodable l = false).
Proof.
  intros Hp Hws Hfl. rewrite main_loaded.
  pose proof (format_json_raise_float data page pages ws h) as Hcases.
  destruct (format_json data h) as [h' [lines_text|e0]] eqn:E.
  - cbn [snd].
    destruct (extract_outcome lines_text default_markers
                default_markers_nonempty) as [->|(f & l & Hx & _)]; [done|].
    rewrite Hx. unfold print_names.
    destruct (forallb encodable f && forallb encodable l) eqn:Henc; [done|].
    intros [= <-]. right. split; [done|]. by exists lines_text, f, l.
  - specialize (Hcases e0 Hp Hws Hfl eq_refl).
    destruct e0; simpl; intros [= <-]; try done; left; split; eauto.
Qed.

(** [main] prints its error message when the file could not be loaded, when
    the document has no page, and also when a word of the first page has an
    ordinate whose quotient by the tolerance is NaN: the [ValueError] of
    [round] is caught by the handler meant for the file. *)
Theorem main_error_message file h :
  (main isspace isupper encodable file h).2 = Ok PrintedError ->
  file = LoadFailed \/
  exists data, file = Loaded data /\
    (default [] (pages_of data) = [] \/
     exists page pages ws w y,
       pages_of data = Some (page :: pages) /\ words_of page = Some ws /\
       w ∈ ws /\
       y_avg_of (main isspace isupper encodable file h).1 w = Some y /\
       is_nan (fdiv y y_tol_default) = true).
Proof.
  intros Hrun. destruct file as [|data]; [by left|].
  right. exists data. split; [done|]. revert Hrun. rewrite main_loaded.
  pose proof (format_json_raise_cases data h) as Hcases.
  destruct (format_json data h) as [h' [lines_text|e0]]; simpl in *.
  - destruct (extract_patient_name _ _ _ _) as [[[f|] [l|]]|]; try done.
    unfold print_names. by destruct (_ && _).
  - specialize (Hcases e0 eq_refl). by destruct e0.
Qed.

(** A word box of the first page that lacks [bbox] or a coordinate makes
    [main] end with an exception that its handler does not catch; when the
    coordinates that are there are floats, the exception is [KeyError] or
    [TypeError]. *)
Theorem main_crashes_on_malformed data page pages ws w h :
  pages_of data = Some (page :: pages) -> words_of page = Some ws ->
  w ∈ ws -> is_Some (missing_field (h !!! w)) ->
  exists e, (main isspace isupper encodable (Loaded data) h).2 = Raise e /\
            (Forall (fun w => float_coordinates (h !!! w)) ws ->
             (exists k, e = KeyError k) \/ e = TypeError).
Proof.
  intros Hp Hws Hin Hmiss. destruct data as [ps]. simpl in Hp. subst ps.
  destruct (annotate_all_missing ws h w Hin Hmiss) as [e He].
  destruct (for_each annotate ws h) as [h1 r] eqn:E. simpl in He. subst r.
  destruct (annotate_all_raises _ _ _ _ E) as [Hkind _].
  exists e. split; [|done]. rewrite main_loaded.
  destruct ws as [|w0 ws0]; [by apply elem_of_nil in Hin|].
  rewrite (format_json_words _ _ w0 ws0) by done.
  rewrite (sort_file_raise _ _ _ _ _ E).
  by destruct Hkind as [[k ->]| ->].
Qed.
End MainFacts.

Lemma main_prints_what_is_found_witness :
  exists f l,
    extract_patient_name unicode_isspace latin1_isupper
      [of_string "Monsieur Jean Dupont ne"; of_string "le 12/01/1980"]
      default_markers = Ok (Some f, Some l) /\
    (main unicode_isspace latin1_isupper utf8_encodable
       (Loaded example_document) example_store).2 = Ok (PrintedName f l).
Proof.
  destruct (main_prints_what_is_found unicode_isspace latin1_isupper
              utf8_encodable example_document example_store
              [of_string "Monsieur Jean Dupont ne"; of_string "le 12/01/1980"])
    as [[H _]|(f & l & H & Hm)].
  - vm_compute. reflexivity.
  - vm_compute in H. discriminate H.
  - exists f, l. split; [exact H|]. rewrite Hm.
    vm_compute in H. injection H as <- <-. vm_compute. reflexivity.
Defined.

Lemma main_uncaught_witness :
  ((format_json bad_document bad_store).2 = Raise (KeyError "bbox") /\
   ((exists k, KeyError "bbox" = KeyError k) \/ KeyError "bbox" = TypeError \/
    KeyError "bbox" = OverflowError)) \/
  (KeyError "bbox" = UnicodeEncodeError /\
   exists lines_text f l,
     (format_json bad_document bad_store).2 = Ok lines_text /\
     extract_patient_name unicode_isspace latin1_isupper lines_text
       default_markers = Ok (Some f, Some l) /\
     forallb utf8_encodable f && forallb utf8_encodable l = false).
Proof.
  apply (main_uncaught unicode_isspace latin1_isupper utf8_encodable
           bad_document {| words_of := Some [2; 1]%positive |} []
           [2; 1]%positive bad_store (KeyError "bbox")).
  - reflexivity.
  - reflexivity.
  - repeat constructor; float_coords.
  - vm_compute. reflexivity.
Defined.

Lemma main_error_message_witness :
  Loaded nan_line_document = LoadFailed \/
  exists data, Loaded nan_line_document = Loaded data /\
    (default [] (pages_of data) = [] \/
     exists page pages ws w y,
       pages_of data = Some (page :: pages) /\ words_of page = Some ws /\
       w ∈ ws /\
       y_avg_of (main unicode_isspace latin1_isupper utf8_encodable
                   (Loaded nan_line_document) nan_line_store).1 w = Some y /\
       is_nan (fdiv y y_tol_default) = true).
Proof.
  apply (main_error_message unicode_isspace latin1_isupper utf8_encodable
           (Loaded nan_line_document) nan_line_store).
  vm_compute. reflexivity.
Defined.

Lemma main_crashes_on_malformed_witness :
  exists e,
    (main unicode_isspace latin1_isupper utf8_encodable (Loaded bad_document)
       bad_store).2 = Raise e /\
    (Forall (fun w => float_coordinates (bad_store !!! w)) [2; 1]%positive ->
     (exists k, e = KeyError k) \/ e = TypeError).
Proof.
  apply (main_crashes_on_malformed unicode_isspace latin1_isupper
           utf8_encodable bad_document
           {| words_of := Some [2; 1]%positive |} [] [2; 1]%positive
           1%positive bad_store).
  - reflexivity.
  - reflexivity.
  - by right; left.
  - vm_compute. eauto.
Defined.

(** ** When [sort_file] returns *)

Lemma y_mid_ext d1 d2 : d1 !! "bbox" = d2 !! "bbox" -> y_mid d1 = y_mid d2.
Proof. intros E. unfold y_mid. by rewrite (avg_of_ext d1 d2). Qed.

Lemma annotate_y_avg w h h' :
  annotate w h = (h', Ok tt) -> y_avg_of h' w = y_mid (h !!! w).
Proof.
  rewrite annotate_eq. intros [= <- Hr].
  unfold y_avg_of, float_field, y_mid. revert Hr. unfold annotated.
  destruct (avg_of (h !!! w) "y_min" "y_max") as [y|] eqn:Ey; [|done].
  destruct (avg_of (h !!! w) "x_min" "x_max") as [x|] eqn:Ex; [|done].
  intros _. simpl. rewrite lookup_total_insert_eq.
  by rewrite lookup_insert_ne, lookup_insert_eq.
Qed.

(** After the first loop every word carries the ordinate of the centre of
    its [bbox]. *)
Lemma annotate_all_y_avg ws : forall h h1 w,
  for_each annotate ws h = (h1, Ok tt) -> w ∈ ws ->
  y_avg_of h1 w = y_mid (h !!! w).
Proof.
  induction ws as [|w0 ws IH]; intros h h1 w Hrun Hin.
  { by apply elem_of_nil in Hin. }
  rewrite for_each_cons in Hrun.
  destruct (annotate w0 h) as [h' [[]|e]] eqn:Ew; [|done].
  destruct (decide (w ∈ ws)) as [Hws|Hws].
  - rewrite (IH _ _ _ Hrun Hws). apply y_mid_ext. by eapply annotate_frame.
  - apply elem_of_cons in Hin as [->|Hin]; [|done].
    rewrite <- (annotate_y_avg _ _ _ Ew).
    unfold y_avg_of, float_field.
    by rewrite (lookup_total_heap_eq h' h1 w0)
      by (by eapply annotate_all_other).
Qed.

(** A word box with float coordinates is well formed when its [bbox] is a
    dict and none of the four coordinates is missing. *)
Lemma well_formed_float d :
  float_coordinates d ->
  well_formed d <->
  (exists b, d !! "bbox" = Some (VDict b)) /\ missing_field d = None.
Proof.
  intros Hfl. unfold well_formed, missing_field. split.
  - intros (b & y0 & y1 & x0 & x1 & Hb & Hy0 & Hy1 & Hx0 & Hx1).
    rewrite Hb. split; [by eexists|]. simpl. by rewrite Hy0, Hy1, Hx0, Hx1.
  - intros [[b Hb] Hm]. rewrite Hb in Hm. simpl in Hm.
    assert (forall c v, c ∈ ["y_min"; "y_max"; "x_min"; "x_max"] ->
              b !! c = Some v -> exists f, v = VFloat f) as Hc
      by (intros c v; by apply Hfl).
    destruct (b !! "y_min") as [v0|] eqn:E0; simpl in Hm; [|done].
    destruct (Hc "y_min" v0) as [f0 ->]; [set_solver|done|].
    destruct (b !! "y_max") as [v1|] eqn:E1; simpl in Hm; [|done].
    destruct (Hc "y_max" v1) as [f1 ->]; [set_solver|done|].
    destruct (b !! "x_min") as [v2|] eqn:E2; simpl in Hm; [|done].
    destruct (Hc "x_min" v2) as [f2 ->]; [set_solver|done|].
    destruct (b !! "x_max") as [v3|] eqn:E3; simpl in Hm; [|done].
    destruct (Hc "x_max" v3) as [f3 ->]; [set_solver|done|].
    by exists b, f0, f1, f2, f3.
Qed.

(** On word boxes whose coordinates are floats, [sort_file] returns lines
    exactly when every word box has a [bbox] dict with none of the four
    coordinates missing and every ordinate, divided by the tolerance, can be
    rounded: the quotient is neither NaN nor infinite, and the tolerance is
    not zero when there is a word at all. *)
Theorem sort_file_returns_iff ws y_tol h :
  Forall (fun w => float_coordinates (h !!! w)) ws ->
  is_ok (sort_file ws y_tol h).2 = true <->
  (ws <> [] -> is_zero y_tol = false) /\
  Forall (fun w =>
            (exists b, (h !!! w) !! "bbox" = Some (VDict b)) /\
            missing_field (h !!! w) = None /\
            forall y, y_mid (h !!! w) = Some y ->
                      is_ok (float_round (fdiv y y_tol)) = true) ws.
Proof.
  intros Hfl. rewrite Forall_forall in Hfl. split.
  - destruct (sort_file ws y_tol h) as [h1 [lines|e]] eqn:Erun; [|done].
    intros _. apply sort_file_ok in Erun as (Hann & Hks & Hav & _).
    pose proof (annotate_all_ok_well_formed _ _ _ Hann) as Hwf.
    rewrite Forall_forall in Hks, Hav, Hwf.
    assert (forall w, w ∈ ws ->
              is_zero y_tol = false /\
              forall y, y_mid (h !!! w) = Some y ->
                        is_ok (float_round (fdiv y y_tol)) = true) as Hw.
    { intros w Hin.
      destruct (key_of_averages y_tol h1 w (Hav w Hin)) as (y' & Hy' & Hk).
      pose proof (Hks w Hin) as Hok. rewrite Hk in Hok.
      destruct (is_zero y_tol); [done|]. split; [done|].
      intros y Hy. rewrite (annotate_all_y_avg _ _ _ _ Hann Hin) in Hy'.
      by simplify_eq. }
    split.
    + destruct ws as [|w ws']; [done|]. intros _. apply (Hw w). left.
    + apply Forall_forall. intros w Hin.
      destruct (proj1 (well_formed_float _ (Hfl w Hin)) (Hwf w Hin))
        as [Hb Hm].
      split; [done|]. split; [done|]. by apply Hw.
  - intros [Hz Hall]. rewrite Forall_forall in Hall.
    destruct (annotate_all_well_formed ws h) as [h1 Hann].
    { apply Forall_forall. intros w Hin.
      destruct (Hall w Hin) as (Hb & Hm & _).
      by apply (well_formed_float _ (Hfl w Hin)). }
    rewrite (sort_file_total _ _ _ _ Hann); [done|].
    pose proof (annotate_all_averages _ _ _ Hann) as Hav.
    rewrite Forall_forall in Hav. apply Forall_forall. intros w Hin.
    destruct (key_of_averages y_tol h1 w (Hav w Hin)) as (y & Hy & ->).
    rewrite Hz by (intros ->; by apply elem_of_nil in Hin).
    apply (Hall w Hin). by rewrite <- (annotate_all_y_avg _ _ _ _ Hann Hin).
Qed.

Lemma sort_file_returns_iff_witness :
  is_ok (sort_file [1; 2; 3]%positive y_tol_default nan_elsewhere_store).2
    = true <->
  ([1; 2; 3]%positive <> [] -> is_zero y_tol_default = false) /\
  Forall (fun w =>
            (exists b, (nan_elsewhere_store !!! w) !! "bbox" = Some (VDict b)) /\
            missing_field (nan_elsewhere_store !!! w) = None /\
            forall y, y_mid (nan_elsewhere_store !!! w) = Some y ->
                      is_ok (float_round (fdiv y y_tol_default)) = true)
         [1; 2; 3]%positive.
Proof.
  apply (sort_file_returns_iff [1; 2; 3]%positive y_tol_default
           nan_elsewhere_store).
  repeat constructor; float_coords.
Defined.

(** ** Where the names come from *)

Lemma embeds_app_l (ws : list pystr) p t : embeds ws t -> embeds ws (p ++ t).
Proof.
  destruct ws as [|w ws]; [done|]. intros (pre & post & -> & Hrest).
  exists (p ++ pre), post. by rewrite <- app_assoc.
Qed.

Lemma embeds_app_r (ws : list pystr) : forall t q,
  embeds ws t -> embeds ws (t ++ q).
Proof.
  induction ws as [|w ws IH]; intros t q; [done|].
  intros (pre & post & -> & Hrest).
  exists pre, (post ++ q). split; [by rewrite <- !app_assoc|by apply IH].
Qed.

Lemma embeds_filter (P : pystr -> Prop) `{!forall w, Decision (P w)}
    (ws : list pystr) : forall t,
  embeds ws t -> embeds (filter P ws) t.
Proof.
  induction ws as [|w ws IH]; intros t; [done|].
  intros (pre & post & -> & Hrest). rewrite filter_cons.
  destruct (decide (P w)).
  - exists pre, post. split; [done|by apply IH].
  - rewrite (app_assoc pre w post). by apply embeds_app_l, IH.
Qed.

Section NameFacts.
Context (isspace isupper : char -> bool).

Lemma scan_words_embeds s :
  exists post, s = (scan_words isspace s).1 ++ post /\
               embeds (scan_words isspace s).2 post.
Proof.
  induction s as [|c s (post & Hs & Hws)]; [by exists []|]. simpl.
  destruct (scan_words isspace s) as [w ws]. simpl in *.
  destruct (isspace c); simpl.
  - exists (c :: s). split; [done|]. destruct w as [|d w]; simpl.
    + simpl in Hs. rewrite Hs. by apply (embeds_app_l ws [c]).
    + exists [c], post. split; [by rewrite Hs|done].
  - exists post. split; [by rewrite Hs|done].
Qed.

(** The words of [split()] stand in the string, in their order. *)
Lemma split_ws_embeds s : embeds (split_ws isspace s) s.
Proof.
  unfold split_ws. destruct (scan_words_embeds s) as (post & Hs & Hws).
  destruct (scan_words isspace s) as [w ws]. simpl in *.
  destruct w as [|d w]; simpl.
  - simpl in Hs. by rewrite Hs.
  - exists [], post. split; [by rewrite Hs|done].
Qed.

Lemma candidates_embeds s : embeds (candidates isspace isupper s) s.
Proof.
  unfold candidates. apply embeds_filter. rewrite split_ws_strip.
  apply split_ws_embeds.
Qed.

Lemma scan_markers_source line markers first last :
  scan_markers isspace isupper line markers = Ok (Some (first, last)) ->
  exists marker before after,
    marker ∈ markers /\ partition_first marker line = Some (before, after) /\
    embeds [first; last] after.
Proof.
  induction markers as [|m ms IH]; [done|].
  destruct m as [|c m]; [by rewrite scan_markers_empty_marker|].
  rewrite scan_markers_cons by done.
  assert (scan_markers isspace isupper line ms = Ok (Some (first, last)) ->
          exists marker before after,
            marker ∈ (c :: m) :: ms /\
            partition_first marker line = Some (before, after) /\
            embeds [first; last] after) as Hrest.
  { intros E. destruct (IH E) as (marker & b & a & Hin & Hp & He).
    exists marker, b, a. split; [by right|done]. }
  destruct (partition_first (c :: m) line) as [[b a]|] eqn:Ep; [|done].
  cbv zeta. case_len; [|done].
  intros [= <- <-]. exists (c :: m), b, a. split; [left|]. split; [done|].
  pose proof (candidates_embeds (segment (c :: m) a)) as He.
  destruct (candidates isspace isupper (segment (c :: m) a))
    as [|n1 [|n2 tl]]; try done.
  destruct (segment_prefix (c :: m) a) as [t Ht]. rewrite Ht.
  apply embeds_app_r.
  destruct He as (pre & post & -> & pre' & post' & -> & _).
  exists pre, (pre' ++ n2 ++ post'). split; [done|].
  by exists pre', post'.
Qed.

(** The extractor over two runs of lines: what it finds in the first run,
    and only when it finds nothing there, what it finds in the second. *)
Theorem extract_app lines1 lines2 markers :
  extract_patient_name isspace isupper (lines1 ++ lines2) markers =
  match extract_patient_name isspace isupper lines1 markers with
  | Ok (None, None) => extract_patient_name isspace isupper lines2 markers
  | r => r
  end.
Proof.
  induction lines1 as [|line lines1 IH]; [done|].
  rewrite <- app_comm_cons, !extract_cons.
  by destruct (scan_markers isspace isupper line markers) as [[[f l]|]|].
Qed.

(** The two names the extractor returns are read off one line: a marker of
    the list occurs in that line, and after its first occurrence stand the
    first name and, somewhere after it, the last name. *)
Theorem names_stand_in_a_line lines markers first last :
  extract_patient_name isspace isupper lines markers
    = Ok (Some first, Some last) ->
  exists line marker before after pre mid post,
    line ∈ lines /\ marker ∈ markers /\
    partition_first marker line = Some (before, after) /\
    line = before ++ marker ++ after /\
    after = pre ++ first ++ mid ++ last ++ post.
Proof.
  induction lines as [|line lines IH]; [done|].
  rewrite extract_cons.
  destruct (scan_markers isspace isupper line markers) as [[[f l]|]|] eqn:E;
    [| |done].
  - intros [= <- <-].
    apply scan_markers_source in E
      as (marker & b & a & Hm & Hp & pre & post & -> & mid & post' & -> & _).
    exists line, marker, b, (pre ++ f ++ mid ++ l ++ post'), pre, mid, post'.
    split; [left|]. split; [done|]. split; [done|].
    split; [by apply partition_first_app|done].
  - intros Hrest.
    destruct (IH Hrest)
      as (ln & marker & b & a & pre & mid & post & Hin & Hm & Hp & Hl & Ha).
    exists ln, marker, b, a, pre, mid, post. split; [by right|done].
Qed.
End NameFacts.

Lemma names_stand_in_a_line_witness :
  exists line marker before after pre mid post,
    line ∈ lines_example /\ marker ∈ default_markers /\
    partition_first marker line = Some (before, after) /\
    line = before ++ marker ++ after /\
    after = pre ++ of_string "Jean" ++ mid ++ of_string "Dupont" ++ post.
Proof.
  apply (names_stand_in_a_line unicode_isspace latin1_isupper lines_example
           default_markers).
  vm_compute. reflexivity.
Defined.
